(** * Sales-report loader: a shallow embedding of [DB_version2.py]

    The script fetches a JSON report, decodes it (with one lexical repair
    pass), flattens it into a table, sanitises and de-duplicates the column
    names, guesses a PostgreSQL type per column from its name, and inserts the
    rows one by one.

    Python [str] values are sequences of Unicode code points; they are
    embedded as [list N].  Everything the script does to ASCII text is
    written out below.  What the interpreter's Unicode tables and the
    libraries (pandas, numpy, dateutil) do outside the fragments written
    out here is taken from a [Host] record, so every statement holds
    whatever those tables contain.  The database is a parameter too: it may
    refuse any statement. *)

From Stdlib Require Import List NArith ZArith Bool Lia String Ascii.
From Stdlib Require Import DecimalString DecimalNat FinFun.
From Corelib Require Import SpecFloat PrimFloat FloatOps.
Import ListNotations.


(** ** Text *)

Definition pystr := list N.

(** A literal: the code points of an ASCII string. *)
Definition str (s : string) : pystr :=
  List.map N_of_ascii (list_ascii_of_string s).

Definition pystr_eqb (a b : pystr) : bool :=
  if list_eq_dec N.eq_dec a b then true else false.

(** [x in xs] for a list or a set of strings. *)
Definition mem (x : pystr) (xs : list pystr) : bool :=
  existsb (pystr_eqb x) xs.

Definition underscore : N := 95.
Definition backslash : N := 92.
Definition dquote : N := 34.

Definition is_ascii (c : N) : bool := N.ltb c 128.
Definition in_range (lo hi c : N) : bool := N.leb lo c && N.leb c hi.
Definition is_upper_az (c : N) : bool := in_range 65 90 c.
Definition is_lower_az (c : N) : bool := in_range 97 122 c.
Definition is_digit (c : N) : bool := in_range 48 57 c.

(** The class [[A-Za-z0-9_]]. *)
Definition is_ascii_word (c : N) : bool :=
  is_upper_az c || is_lower_az c || is_digit c || N.eqb c underscore.

(** Whitespace below 128 as [str.strip()] sees it: TAB..CR, FS..US, space. *)
Definition is_ascii_space (c : N) : bool :=
  in_range 9 13 c || in_range 28 31 c || N.eqb c 32.

Definition ascii_lower (c : N) : N := if is_upper_az c then N.add c 32 else c.
Definition ascii_upper (c : N) : N := if is_lower_az c then N.sub c 32 else c.

(** Substring search, [sub in s]. *)
Fixpoint starts_with (p s : pystr) : bool :=
  match p, s with
  | [], _ => true
  | _ :: _, [] => false
  | a :: p', b :: s' => N.eqb a b && starts_with p' s'
  end.

Fixpoint contains (sub s : pystr) : bool :=
  starts_with sub s ||
  match s with
  | [] => false
  | _ :: s' => contains sub s'
  end.

(** [s.strip(chars)]: drop the leading and the trailing characters of the
    class. *)
Fixpoint lstrip (p : N -> bool) (s : pystr) : pystr :=
  match s with
  | [] => []
  | c :: s' => if p c then lstrip p s' else s
  end.

Definition rstrip (p : N -> bool) (s : pystr) : pystr :=
  rev (lstrip p (rev s)).

Definition strip (p : N -> bool) (s : pystr) : pystr :=
  rstrip p (lstrip p s).

(** The last character, [s[-1]], when there is one. *)
Definition last_error (s : pystr) : option N := hd_error (rev s).

(** [str(n)] for a non-negative integer: its decimal digits. *)
Definition str_of_nat (n : nat) : pystr :=
  str (DecimalString.NilEmpty.string_of_uint (Nat.to_uint n)).

(** ** Exceptions *)

Inductive exn :=
| ValueError | TypeError | OverflowError | AttributeError
| IndexError | KeyError | NotImplementedError | JSONDecodeError
| DatabaseError (msg : pystr)
(** Not an exception: the bound of a modelled loop was reached. *)
| LoopBound.

(** The outcome of a call: a value, or a raised exception. *)
Inductive result (A : Type) :=
| Ok (a : A)
| Raise (e : exn).
Arguments Ok {A} a.
Arguments Raise {A} e.

Definition bind {A B : Type} (c : result A) (k : A -> result B) : result B :=
  match c with
  | Ok a => k a
  | Raise e => Raise e
  end.

Notation "x <- c ;; k" := (bind c (fun x => k))
  (at level 61, c at next level, right associativity).

(** ** Data model *)

(** A decoded JSON document, as [json.loads] builds it: [dict] members in
    insertion order, numbers as [int] or as binary64 [float]. *)
#[warnings="-register-all"]
Inductive json :=
| JNull
| JBool (b : bool)
| JInt (z : Z)
| JFloat (f : spec_float)
| JStr (s : pystr)
| JArr (items : list json)
| JObj (members : list (pystr * json)).

(** [datetime.date] *)
Record date := { year : N; month : N; day : N }.

(** The values a table cell or an SQL parameter holds. *)
Inductive pyval :=
| PNone
| PNaT
| PBool (b : bool)
| PInt (z : Z)
| PFloat (f : spec_float)
| PStr (s : pystr)
| PDate (d : date)
| PList (items : list json).

(** A table: the column labels and the rows, each row a cell per column. *)
Record frame := { columns : list pystr; rows : list (list pyval) }.

(** ** Host tables

    The parts of the interpreter and of the libraries (pandas, numpy,
    dateutil) that the script calls and that are not written out below: the
    Unicode tables past ASCII, and what the libraries do outside the
    fragments modelled here.  A library call that raises is [None] or
    [Raise]. *)
Record Host := {
  (** [str.isalnum] on a code point from 128 up (the [\w] class of [re]). *)
  uni_isalnum : N -> bool;
  (** [str.isspace] on a code point from 128 up. *)
  uni_isspace : N -> bool;
  (** Lower-casing of a code point from 128 up; it sees the text before and
      after the character (the final-sigma rule) and may yield several
      code points. *)
  uni_lower : pystr -> N -> pystr -> pystr;
  (** Upper-casing of a code point from 128 up. *)
  uni_upper : N -> pystr;
  (** [float(s)] for a string that holds a code point from 128 up. *)
  float_of_text : pystr -> option spec_float;
  (** [str(f)] for a float: the shortest decimal text that reads back. *)
  float_repr : spec_float -> pystr;
  (** [str(l)] for a list. *)
  list_repr : list json -> pystr;
  (** The truth value of [pd.isna(l)] for a list that is empty or holds a
      list. *)
  array_truth : list json -> result bool;
  (** [pd.to_datetime(v).date()] outside the ISO calendar dates. *)
  to_datetime_date : pyval -> option date;
  (** [pd.to_datetime(column, errors='coerce').dt.date], cell by cell, for
      a column that holds anything but ISO calendar dates and missing
      values. *)
  to_datetime_column : list pyval -> result (list pyval);
  (** [pd.json_normalize(data)] for a document that is not a list of flat
      records of strings, nulls and lists. *)
  json_normalize_other : json -> result frame
}.

(** The tables cut off after the Latin-1 Supplement block, with libraries
    that decline whatever is outside the fragments written out below.  It
    instantiates the statements on concrete inputs. *)
Definition latin1_host : Host := {|
  uni_isalnum := fun c =>
    N.eqb c 170 || N.eqb c 178 || N.eqb c 179 || N.eqb c 181 || N.eqb c 185
    || N.eqb c 186 || in_range 188 190 c || in_range 192 214 c
    || in_range 216 246 c || in_range 248 255 c;
  uni_isspace := fun c => N.eqb c 133 || N.eqb c 160;
  uni_lower := fun _ c _ =>
    if in_range 192 222 c && negb (N.eqb c 215) then [N.add c 32] else [c];
  uni_upper := fun c =>
    if in_range 224 254 c && negb (N.eqb c 247) then [N.sub c 32]
    else if N.eqb c 255 then [376%N]
    else if N.eqb c 181 then [924%N]
    else if N.eqb c 223 then [83%N; 83%N]
    else [c];
  float_of_text := fun _ => None;
  float_repr := fun _ => str "<float>";
  list_repr := fun _ => str "<list>";
  array_truth := fun _ => Raise ValueError;
  to_datetime_date := fun _ => None;
  to_datetime_column := fun _ => Raise TypeError;
  json_normalize_other := fun _ => Raise NotImplementedError
|}.

Section Sanitizer.
Variable H : Host.

(** [\w] of a [str] pattern. *)
Definition is_word (c : N) : bool :=
  if is_ascii c then is_ascii_word c else uni_isalnum H c.

Definition is_space (c : N) : bool :=
  if is_ascii c then is_ascii_space c else uni_isspace H c.

Fixpoint lower_from (before s : pystr) : pystr :=
  match s with
  | [] => []
  | c :: rest =>
      (if is_ascii c then [ascii_lower c] else uni_lower H before c rest)
        ++ lower_from (before ++ [c]) rest
  end.

(** [s.lower()] *)
Definition lower (s : pystr) : pystr := lower_from [] s.

(** [s.upper()] *)
Definition upper (s : pystr) : pystr :=
  flat_map (fun c => if is_ascii c then [ascii_upper c] else uni_upper H c) s.

(** [re.sub(r'[^\w]', '_', col)] *)
Definition sub_nonword (col : pystr) : pystr :=
  List.map (fun c => if is_word c then c else underscore) col.

(** [re.sub(r'_+', '_', s)]: the scan emits one underscore where a run of
    underscores starts and swallows the rest of the run ([in_run] tells
    that the previous character belonged to a run). *)
Fixpoint sub_underscores_from (in_run : bool) (s : pystr) : pystr :=
  match s with
  | [] => []
  | c :: rest =>
      if N.eqb c underscore
      then (if in_run then sub_underscores_from true rest
            else underscore :: sub_underscores_from true rest)
      else c :: sub_underscores_from false rest
  end.

Definition sub_underscores (s : pystr) : pystr := sub_underscores_from false s.

Definition postgres_reserved_keywords : list pystr :=
  List.map str ["group"; "order"; "select"; "user"; "where"; "table"; "from";
                "join"; "by"]%string.

(** The characters the sanitizer keeps as they are: the word characters
    other than the underscore. *)
Definition is_alnum (c : N) : bool := is_word c && negb (N.eqb c underscore).

(** The name as it stands before the reserved-keyword test. *)
Definition stripped (col : pystr) : pystr :=
  strip (N.eqb underscore) (sub_underscores (sub_nonword col)).

Definition clean_column (col : pystr) : pystr :=
  let col_clean := sub_nonword col in
  let col_clean := sub_underscores col_clean in
  let col_clean := strip (N.eqb underscore) col_clean in
  if mem (lower col_clean) postgres_reserved_keywords
  then col_clean ++ [underscore]
  else col_clean.
End Sanitizer.


(** ** De-duplication of the cleaned names *)
Section Dedup.
Variable H : Host.

(** The f-string [{clean_col}_{suffix}]. *)
Definition suffixed (clean_col : pystr) (suffix : nat) : pystr :=
  clean_col ++ [underscore] ++ str_of_nat suffix.

(** The [while] loop that steps [suffix] past the names in [seen], with the number
    of iterations bounded by [fuel]; [None] when the bound is reached. *)
Fixpoint next_suffix (fuel : nat) (seen : list pystr) (clean_col : pystr)
         (suffix : nat) : option nat :=
  if mem (suffixed clean_col suffix) seen
  then match fuel with
       | O => None
       | S fuel' => next_suffix fuel' seen clean_col (S suffix)
       end
  else Some suffix.

(** One iteration of [for col in df.columns]; the state is
    [(cleaned_columns, seen)]. *)
Definition dedup_step (st : list pystr * list pystr) (col : pystr)
  : option (list pystr * list pystr) :=
  let '(cleaned_columns, seen) := st in
  let clean_col := clean_column H col in
  let named :=
    if mem clean_col seen
    then match next_suffix (List.length seen) seen clean_col 1 with
         | Some suffix => Some (suffixed clean_col suffix)
         | None => None
         end
    else Some clean_col in
  match named with
  | Some clean_col' => Some (cleaned_columns ++ [clean_col'], clean_col' :: seen)
  | None => None
  end.

(** What the step may name a column whose cleaned name is [base], given
    the names produced for the [earlier] columns: [base] itself when it is
    new, else [base] with the least suffix from 1 that gives a new name. *)
Definition dedup_choice (earlier : list pystr) (base name : pystr) : Prop :=
  (mem base earlier = false /\ name = base) \/
  (mem base earlier = true /\
   exists k : nat,
     1 <= k /\ name = suffixed base k /\ mem name earlier = false /\
     forall j : nat, 1 <= j < k -> mem (suffixed base j) earlier = true).

(** The loop invariant: [seen] holds the names produced so far, and these
    are pairwise distinct. *)
Definition dedup_inv (st : list pystr * list pystr) : Prop :=
  (forall x, In x (snd st) <-> In x (fst st)) /\ NoDup (fst st).

Fixpoint dedup_loop (st : list pystr * list pystr) (cols : list pystr)
  : option (list pystr * list pystr) :=
  match cols with
  | [] => Some st
  | col :: cols' =>
      match dedup_step st col with
      | Some st' => dedup_loop st' cols'
      | None => None
      end
  end.

(** The value of [cleaned_columns] after the loop. *)
Definition dedup_columns (cols : list pystr) : option (list pystr) :=
  option_map fst (dedup_loop ([], []) cols).
End Dedup.

(** ** Type inference from the column name *)
Section Inference.
Variable H : Host.

Definition infer_pg_type (column_name : pystr) : pystr :=
  let col_lower := lower H column_name in
  if contains (str "date") col_lower && negb (pystr_eqb col_lower (str "billmonth"))
  then str "DATE"
  else if contains (str "month") col_lower
  then str "TEXT"
  else if existsb (fun x => contains x col_lower) (List.map str ["qty"; "points"]%string)
  then str "INTEGER"
  else if existsb (fun x => contains x col_lower)
            (List.map str ["amount"; "price"; "gst"; "disc"; "charges";
                           "percent"; "volume"]%string)
  then str "NUMERIC(10,2)"
  else str "TEXT".

(** The same inference as the specification words it: an ordered table of
    rules over the lower-cased name, the first rule that matches decides,
    and [TEXT] is the default. *)
Definition contains_any (names : list string) (s : pystr) : bool :=
  existsb (fun x => contains (str x) s) names.

Definition type_rules : list ((pystr -> bool) * pystr) :=
  [ (fun n => contains (str "date") n && negb (pystr_eqb n (str "billmonth")),
     str "DATE");
    (contains (str "month"), str "TEXT");
    (contains_any ["qty"; "points"]%string, str "INTEGER");
    (contains_any ["amount"; "price"; "gst"; "disc"; "charges"; "percent";
                   "volume"]%string,
     str "NUMERIC(10,2)") ].

Definition first_match (rules : list ((pystr -> bool) * pystr))
           (default n : pystr) : pystr :=
  match find (fun r => fst r n) rules with
  | Some r => snd r
  | None => default
  end.

Definition infer_by_rules (column_name : pystr) : pystr :=
  first_match type_rules (str "TEXT") (lower H column_name).
End Inference.


(** ** Numbers *)

(** [x in s] for a character. *)
Definition has_char (c : N) (s : pystr) : bool := existsb (N.eqb c) s.

(** The longest prefix of characters of a class, and the rest. *)
Fixpoint span (p : N -> bool) (s : pystr) : pystr * pystr :=
  match s with
  | [] => ([], [])
  | c :: rest =>
      if p c then let '(a, b) := span p rest in (c :: a, b) else ([], s)
  end.

(** The number a run of ASCII digits denotes. *)
Definition digits_value (ds : pystr) : N :=
  fold_left (fun acc d => N.add (N.mul acc 10) (N.sub d 48)) ds 0%N.

(** A binary64 float is a [spec_float] of precision 53 and exponent bound
    1024. *)
Definition prec : Z := 53.
Definition emax : Z := 1024.

(** The float nearest to [m * 10^e] (ties to even), signed; it overflows to
    an infinity. *)
Definition float_of_decimal (neg : bool) (m : N) (e : Z) : spec_float :=
  match m with
  | N0 => S754_zero neg
  | Npos p =>
      if Z.leb 0 e
      then binary_normalize prec emax
             (Z.mul (if neg then Zneg p else Zpos p) (Z.pow 10 e)) 0 false
      else SFdiv prec emax (S754_finite neg p 0)
             (S754_finite false (Z.to_pos (Z.pow 10 (Z.opp e))) 0)
  end.

(** [float(n)] for an [int]: nearest float, [OverflowError] past the range. *)
Definition float_of_int (z : Z) : result spec_float :=
  match binary_normalize prec emax z 0 false with
  | S754_infinity _ => Raise OverflowError
  | f => Ok f
  end.

(** [int(f)]: truncation toward zero; infinities and NaN raise. *)
Definition int_of_float (f : spec_float) : result Z :=
  match f with
  | S754_zero _ => Ok 0%Z
  | S754_infinity _ => Raise OverflowError
  | S754_nan => Raise ValueError
  | S754_finite s m e =>
      let a := if Z.leb 0 e then Z.mul (Zpos m) (Z.pow 2 e)
               else Z.div (Zpos m) (Z.pow 2 (Z.opp e)) in
      Ok (if s then Z.opp a else a)
  end.

(** The whitespace of the C locale, which [float] strips from ASCII text. *)
Definition is_c_space (c : N) : bool := in_range 9 13 c || N.eqb c 32.

(** Digit grouping: an underscore is dropped when it stands between two
    digits and refused anywhere else ([prev] is the previous character,
    0 at the start). *)
Fixpoint drop_underscores (prev : N) (s : pystr) : option pystr :=
  match s with
  | [] => if N.eqb prev underscore then None else Some []
  | c :: rest =>
      if N.eqb c underscore
      then (if is_digit prev then drop_underscores c rest else None)
      else if N.eqb prev underscore && negb (is_digit c) then None
      else option_map (cons c) (drop_underscores c rest)
  end.

(** A leading sign. *)
Definition scan_sign (s : pystr) : bool * pystr :=
  match s with
  | 45%N :: rest => (true, rest)
  | 43%N :: rest => (false, rest)
  | _ => (false, s)
  end.

(** The exponent part [[eE][+-]?digits], when it is complete; the text is
    left untouched otherwise. *)
Definition scan_exponent (s : pystr) : Z * pystr :=
  match s with
  | c :: rest =>
      if N.eqb c 101 || N.eqb c 69
      then let '(neg, r) := scan_sign rest in
           let '(ds, r') := span is_digit r in
           match ds with
           | [] => (0%Z, s)
           | _ => let v := Z.of_N (digits_value ds) in
                  ((if neg then Z.opp v else v), r')
           end
      else (0%Z, s)
  | [] => (0%Z, s)
  end.

(** A decimal literal [digits [. digits] [exponent]] with a digit before or
    after the point: its digits as one integer, its power of ten, the rest
    of the text. *)
Definition scan_decimal (s : pystr) : option (N * Z * pystr) :=
  let '(ip, r1) := span is_digit s in
  let '(fp, r2) := match r1 with
                   | 46%N :: r => span is_digit r
                   | _ => ([], r1)
                   end in
  match ip ++ fp with
  | [] => None
  | ds =>
      let '(e, r3) := scan_exponent r2 in
      Some (digits_value ds, Z.sub e (Z.of_nat (List.length fp)), r3)
  end.

(** [float(s)] for ASCII text: [inf], [infinity] and [nan] in any case, or
    a decimal literal, with an optional sign, between optional whitespace;
    the whole text must be used. *)
Definition float_of_ascii (s : pystr) : option spec_float :=
  if has_char 0 s then None else
  match drop_underscores 0 s with
  | None => None
  | Some s1 =>
      let '(neg, r) := scan_sign (strip is_c_space s1) in
      let word := List.map ascii_lower r in
      if pystr_eqb word (str "inf") || pystr_eqb word (str "infinity")
      then Some (S754_infinity neg)
      else if pystr_eqb word (str "nan") then Some S754_nan
      else match scan_decimal r with
           | Some (m, e, []) => Some (float_of_decimal neg m e)
           | _ => None
           end
  end.

(** [str(n)] for an [int]. *)
Definition str_of_Z (z : Z) : pystr :=
  let digits := str (NilEmpty.string_of_uint (N.to_uint (Z.abs_N z))) in
  if Z.ltb z 0 then 45%N :: digits else digits.

(** ** Dates *)

Definition is_leap (y : N) : bool :=
  N.eqb (N.modulo y 4) 0 && (negb (N.eqb (N.modulo y 100) 0) || N.eqb (N.modulo y 400) 0).

Definition days_in_month (y m : N) : N :=
  if N.eqb m 2 then (if is_leap y then 29 else 28)
  else if N.eqb m 4 || N.eqb m 6 || N.eqb m 9 || N.eqb m 11 then 30
  else 31.

Definition valid_date (d : date) : bool :=
  N.leb 1 (year d) && N.leb (year d) 9999 &&
  N.leb 1 (month d) && N.leb (month d) 12 &&
  N.leb 1 (day d) && N.leb (day d) (days_in_month (year d) (month d)).

(** A date that a nanosecond timestamp can hold whatever the day: the
    years 1678 to 2261. *)
Definition in_ns_years (d : date) : bool :=
  N.leb 1678 (year d) && N.leb (year d) 2261.

(** An ISO calendar date [YYYY-MM-DD] of the years a timestamp holds. *)
Definition iso_date (s : pystr) : option date :=
  match s with
  | [y1; y2; y3; y4; 45%N; m1; m2; 45%N; d1; d2] =>
      if forallb is_digit [y1; y2; y3; y4; m1; m2; d1; d2]
      then let d := {| year := digits_value [y1; y2; y3; y4];
                       month := digits_value [m1; m2];
                       day := digits_value [d1; d2] |} in
           if valid_date d && in_ns_years d then Some d else None
      else None
  | _ => None
  end.

(** [s.rjust(n, '0')] *)
Definition zero_pad (n : nat) (s : pystr) : pystr :=
  List.repeat 48%N (n - List.length s) ++ s.

(** [d.isoformat()] *)
Definition isoformat (d : date) : pystr :=
  zero_pad 4 (str_of_nat (N.to_nat (year d))) ++ [45%N]
  ++ zero_pad 2 (str_of_nat (N.to_nat (month d))) ++ [45%N]
  ++ zero_pad 2 (str_of_nat (N.to_nat (day d))).

(** ** Value coercion *)

(** The missing values: [None], [NaT] and the float NaN. *)
Definition is_missing_cell (v : pyval) : bool :=
  match v with
  | PNone | PNaT | PFloat S754_nan => true
  | _ => false
  end.

Definition is_list_cell (v : pyval) : bool :=
  match v with
  | PList _ => true
  | _ => false
  end.

Section Coercion.
Variable H : Host.

(** [pd.isna] on an element of an object array. *)
Definition json_isna (j : json) : bool :=
  match j with
  | JNull => true
  | JFloat S754_nan => true
  | _ => false
  end.

Definition is_json_list (j : json) : bool :=
  match j with
  | JArr _ => true
  | _ => false
  end.

(** The truth value of [pd.isna(value)], which the [or] of the sentinel
    test takes first.  On a list [pd.isna] answers element by element with
    an array: an array of one element has the truth value of that element,
    and one of two or more has none ([ValueError]). *)
Definition isna_truth (value : pyval) : result bool :=
  match value with
  | PNone | PNaT => Ok true
  | PFloat S754_nan => Ok true
  | PList items =>
      if existsb is_json_list items then array_truth H items
      else match items with
           | [] => array_truth H items
           | [x] => Ok (json_isna x)
           | _ :: _ :: _ => Raise ValueError
           end
  | _ => Ok false
  end.

(** The sentinel test: a [str] whose stripped, upper-cased form is [N/A],
    empty or [NA]. *)
Definition is_sentinel (value : pyval) : bool :=
  match value with
  | PStr s => mem (upper H (strip (is_space H) s)) [str "N/A"; []; str "NA"]
  | _ => false
  end.

(** [float(value)] *)
Definition py_float (value : pyval) : result spec_float :=
  match value with
  | PStr s =>
      match (if forallb is_ascii s then float_of_ascii s else float_of_text H s) with
      | Some f => Ok f
      | None => Raise ValueError
      end
  | PInt z => float_of_int z
  | PFloat f => Ok f
  | PBool b => Ok (if b then float_of_decimal false 1 0 else S754_zero false)
  | PNone | PNaT | PDate _ | PList _ => Raise TypeError
  end.

(** [pd.to_datetime(value).date()]; [None] when it raises. *)
Definition py_date (value : pyval) : option date :=
  match value with
  | PStr s =>
      match iso_date s with
      | Some d => Some d
      | None => to_datetime_date H value
      end
  | PDate d =>
      if valid_date d && in_ns_years d then Some d else to_datetime_date H value
  | _ => to_datetime_date H value
  end.

(** [str(value)] *)
Definition py_str (value : pyval) : pystr :=
  match value with
  | PNone => str "None"
  | PNaT => str "NaT"
  | PBool b => if b then str "True" else str "False"
  | PInt z => str_of_Z z
  | PFloat f => float_repr H f
  | PStr s => s
  | PDate d => isoformat d
  | PList items => list_repr H items
  end.

(** What a [try: ... except: return None] block returns. *)
Definition or_none (c : result pyval) : pyval :=
  match c with
  | Ok v => v
  | Raise _ => PNone
  end.

Definition clean_value (value : pyval) (expected_type : pystr) : result pyval :=
  na <- isna_truth value ;;
  if na || is_sentinel value then Ok PNone
  else if pystr_eqb expected_type (str "numeric") then
    Ok (or_none (f <- py_float value ;; Ok (PFloat f)))
  else if pystr_eqb expected_type (str "integer") then
    Ok (or_none (f <- py_float value ;; n <- int_of_float f ;; Ok (PInt n)))
  else if pystr_eqb expected_type (str "date") then
    Ok (match py_date value with
        | Some d => PDate d
        | None => PNone
        end)
  else Ok (PStr (strip (is_space H) (py_str value))).

(** The coercion as the specification words it: a missing value or a
    sentinel gives NULL; [numeric] parses a float, [integer] parses a
    float and truncates it, [date] parses a calendar date, each with NULL
    on failure; any other type gives the text of the value, trimmed. *)
Definition coerce (value : pyval) (expected_type : pystr) : pyval :=
  if is_missing_cell value || is_sentinel value then PNone
  else if pystr_eqb expected_type (str "numeric") then
    match py_float value with
    | Ok f => PFloat f
    | Raise _ => PNone
    end
  else if pystr_eqb expected_type (str "integer") then
    match py_float value with
    | Ok f => match int_of_float f with
              | Ok n => PInt n
              | Raise _ => PNone
              end
    | Raise _ => PNone
    end
  else if pystr_eqb expected_type (str "date") then
    match py_date value with
    | Some d => PDate d
    | None => PNone
    end
  else PStr (strip (is_space H) (py_str value)).
End Coercion.

(** ** JSON decoding

    [json.loads] with its default (strict) settings: a scanner that turns the
    text into tokens and a parser that runs the tokens against a stack of
    open containers.  The limits of the interpreter (recursion depth, digits
    of an integer) are not modelled. *)

Inductive token :=
| TLBrace | TRBrace | TLBracket | TRBracket | TColon | TComma
| TScalar (v : json).

Definition is_json_ws (c : N) : bool :=
  N.eqb c 32 || N.eqb c 9 || N.eqb c 10 || N.eqb c 13.

Definition hex_value (c : N) : option N :=
  if is_digit c then Some (N.sub c 48)
  else if in_range 97 102 c then Some (N.sub c 87)
  else if in_range 65 70 c then Some (N.sub c 55)
  else None.

Definition hex4 (a b c d : N) : option N :=
  match hex_value a, hex_value b, hex_value c, hex_value d with
  | Some x, Some y, Some z, Some w =>
      Some (N.add (N.mul (N.add (N.mul (N.add (N.mul x 16) y) 16) z) 16) w)
  | _, _, _, _ => None
  end.

(** The character a two-character escape stands for. *)
Definition simple_escape (e : N) : option N :=
  if N.eqb e dquote then Some dquote
  else if N.eqb e backslash then Some backslash
  else if N.eqb e 47 then Some 47%N
  else if N.eqb e 98 then Some 8%N
  else if N.eqb e 102 then Some 12%N
  else if N.eqb e 110 then Some 10%N
  else if N.eqb e 114 then Some 13%N
  else if N.eqb e 116 then Some 9%N
  else None.

Definition is_high_surrogate (u : N) : bool := in_range 55296 56319 u.
Definition is_low_surrogate (u : N) : bool := in_range 56320 57343 u.
Definition join_surrogates (hi lo : N) : N :=
  N.add 65536 (N.add (N.mul (N.sub hi 55296) 1024) (N.sub lo 56320)).

Definition scanned (c : N) (n : nat) (r : option (pystr * nat)) : option (pystr * nat) :=
  match r with
  | Some (body, k) => Some (c :: body, n + k)
  | None => None
  end.

(** The body of a string literal, from the character after the opening
    quote: the characters it denotes and the number of characters read, the
    closing quote included.  Control characters, unknown escapes and a
    missing closing quote are errors. *)
Fixpoint scan_string (s : pystr) : option (pystr * nat) :=
  match s with
  | [] => None
  | c :: rest =>
      if N.eqb c dquote then Some ([], 1)
      else if N.eqb c backslash then
        match rest with
        | [] => None
        | e :: rest1 =>
            if N.eqb e 117 then
              match rest1 with
              | h1 :: h2 :: h3 :: h4 :: rest2 =>
                  match hex4 h1 h2 h3 h4 with
                  | None => None
                  | Some u =>
                      match rest2 with
                      | b :: v :: k1 :: k2 :: k3 :: k4 :: rest3 =>
                          if is_high_surrogate u && N.eqb b backslash && N.eqb v 117
                          then match hex4 k1 k2 k3 k4 with
                               | None => None
                               | Some u2 =>
                                   if is_low_surrogate u2
                                   then scanned (join_surrogates u u2) 12 (scan_string rest3)
                                   else scanned u 6 (scan_string rest2)
                               end
                          else scanned u 6 (scan_string rest2)
                      | _ => scanned u 6 (scan_string rest2)
                      end
                  end
              | _ => None
              end
            else match simple_escape e with
                 | Some x => scanned x 2 (scan_string rest1)
                 | None => None
                 end
        end
      else if N.ltb c 32 then None
      else scanned c 1 (scan_string rest)
  end.

(** A number: [-? (0 | [1-9] digits) (. digits+)? ([eE] [+-]? digits+)?],
    an [int] without fraction and exponent and a [float] otherwise. *)
Definition scan_number (s : pystr) : option (json * nat) :=
  let '(neg, r0) := match s with
                    | 45%N :: r => (true, r)
                    | _ => (false, s)
                    end in
  let '(ip, r1) := match r0 with
                   | 48%N :: r => ([48%N], r)
                   | _ => span is_digit r0
                   end in
  match ip with
  | [] => None
  | _ =>
      let '(fp, r2) := match r1 with
                       | 46%N :: r =>
                           match span is_digit r with
                           | ([], _) => ([], r1)
                           | (ds, r') => (ds, r')
                           end
                       | _ => ([], r1)
                       end in
      let '(e, r3) := scan_exponent r2 in
      let used := List.length s - List.length r3 in
      match fp, Nat.eqb (List.length r3) (List.length r2) with
      | [], true =>
          let v := Z.of_N (digits_value ip) in
          Some (JInt (if neg then Z.opp v else v), used)
      | _, _ =>
          Some (JFloat (float_of_decimal neg (digits_value (ip ++ fp))
                          (Z.sub e (Z.of_nat (List.length fp)))), used)
      end
  end.

Definition keyword (word : string) (v : json) (s : pystr) : option (token * nat) :=
  if starts_with (str word) s then Some (TScalar v, String.length word) else None.

(** The token that starts at the head of the text, and its length. *)
Definition token_at (s : pystr) : option (token * nat) :=
  match s with
  | [] => None
  | c :: rest =>
      if N.eqb c 123 then Some (TLBrace, 1)
      else if N.eqb c 125 then Some (TRBrace, 1)
      else if N.eqb c 91 then Some (TLBracket, 1)
      else if N.eqb c 93 then Some (TRBracket, 1)
      else if N.eqb c 58 then Some (TColon, 1)
      else if N.eqb c 44 then Some (TComma, 1)
      else if N.eqb c dquote then
        match scan_string rest with
        | Some (body, n) => Some (TScalar (JStr body), S n)
        | None => None
        end
      else if N.eqb c 110 then keyword "null" JNull s
      else if N.eqb c 116 then keyword "true" (JBool true) s
      else if N.eqb c 102 then keyword "false" (JBool false) s
      else if N.eqb c 78 then keyword "NaN" (JFloat S754_nan) s
      else if N.eqb c 73 then keyword "Infinity" (JFloat (S754_infinity false)) s
      else if starts_with (str "-Infinity") s
      then Some (TScalar (JFloat (S754_infinity true)), 9)
      else match scan_number s with
           | Some (v, n) => Some (TScalar v, n)
           | None => None
           end
  end.

(** The scanner: at each position outside a token it reads the token that
    starts there and then skips the rest of it. *)
Fixpoint lex (skip : nat) (s : pystr) : option (list token) :=
  match s with
  | [] => Some []
  | c :: rest =>
      match skip with
      | S k => lex k rest
      | O =>
          if is_json_ws c then lex 0 rest
          else match token_at s with
               | Some (t, n) => option_map (cons t) (lex (Nat.pred n) rest)
               | None => None
               end
      end
  end.

(** [d[k] = v] on a [dict] kept as its items in insertion order. *)
Fixpoint dict_set (k : pystr) (v : json) (d : list (pystr * json)) : list (pystr * json) :=
  match d with
  | [] => [(k, v)]
  | (k', v') :: d' =>
      if pystr_eqb k k' then (k, v) :: d' else (k', v') :: dict_set k v d'
  end.

Definition dict_of_pairs (pairs : list (pystr * json)) : list (pystr * json) :=
  fold_left (fun d kv => dict_set (fst kv) (snd kv) d) pairs [].

(** An open container: an array with the items read so far (last first), or
    an object with its pairs read so far (last first) and the key that waits
    for its value. *)
Inductive context :=
| CArr (items : list json)
| CObj (pairs : list (pystr * json)) (key : option pystr).

(** What the parser expects next. *)
Inductive phase :=
| PValue | PValueOrClose | PKeyOrClose | PKey | PColon | PNext | PDone (v : json).

(** A value is complete: it is the document, or it joins the innermost open
    container. *)
Definition complete (v : json) (stack : list context) : option (phase * list context) :=
  match stack with
  | [] => Some (PDone v, [])
  | CArr items :: st => Some (PNext, CArr (v :: items) :: st)
  | CObj pairs (Some k) :: st => Some (PNext, CObj ((k, v) :: pairs) None :: st)
  | CObj _ None :: _ => None
  end.

Definition parse_step (st : phase * list context) (t : token) : option (phase * list context) :=
  let '(ph, stack) := st in
  match ph, t with
  | (PValue | PValueOrClose), TScalar v => complete v stack
  | (PValue | PValueOrClose), TLBracket => Some (PValueOrClose, CArr [] :: stack)
  | (PValue | PValueOrClose), TLBrace => Some (PKeyOrClose, CObj [] None :: stack)
  | PValueOrClose, TRBracket =>
      match stack with
      | CArr [] :: st' => complete (JArr []) st'
      | _ => None
      end
  | PKeyOrClose, TRBrace =>
      match stack with
      | CObj [] None :: st' => complete (JObj []) st'
      | _ => None
      end
  | (PKeyOrClose | PKey), TScalar (JStr k) =>
      match stack with
      | CObj pairs None :: st' => Some (PColon, CObj pairs (Some k) :: st')
      | _ => None
      end
  | PColon, TColon => Some (PValue, stack)
  | PNext, TComma =>
      match stack with
      | CArr _ :: _ => Some (PValue, stack)
      | CObj _ None :: _ => Some (PKey, stack)
      | _ => None
      end
  | PNext, TRBracket =>
      match stack with
      | CArr items :: st' => complete (JArr (rev items)) st'
      | _ => None
      end
  | PNext, TRBrace =>
      match stack with
      | CObj pairs None :: st' => complete (JObj (dict_of_pairs (rev pairs))) st'
      | _ => None
      end
  | _, _ => None
  end.

Fixpoint parse_tokens (st : phase * list context) (ts : list token) : option json :=
  match ts with
  | [] => match st with
          | (PDone v, []) => Some v
          | _ => None
          end
  | t :: ts' =>
      match parse_step st t with
      | Some st' => parse_tokens st' ts'
      | None => None
      end
  end.

(** [json.loads(text)] *)
Definition json_loads (text : pystr) : result json :=
  match lex 0 text with
  | Some ts =>
      match parse_tokens (PValue, []) ts with
      | Some v => Ok v
      | None => Raise JSONDecodeError
      end
  | None => Raise JSONDecodeError
  end.

(** ** The decoder with its repair pass *)

(** The characters that may follow a backslash in a JSON escape. *)
Definition is_escape_char (c : N) : bool :=
  N.eqb c dquote || N.eqb c backslash || N.eqb c 47 || N.eqb c 98 || N.eqb c 102
  || N.eqb c 110 || N.eqb c 114 || N.eqb c 116 || N.eqb c 117.

(** The negative look-ahead of the pattern: the next character, if any, is
    not one of the escape characters. *)
Definition not_followed_by_escape (rest : pystr) : bool :=
  match rest with
  | [] => true
  | c :: _ => negb (is_escape_char c)
  end.

(** The [re.sub] of the repair pass: every backslash at which the
    look-ahead holds becomes two backslashes, and the scan goes on after
    it. *)
Fixpoint repair (bad_json : pystr) : pystr :=
  match bad_json with
  | [] => []
  | c :: rest =>
      if N.eqb c backslash && not_followed_by_escape rest
      then backslash :: backslash :: repair rest
      else c :: repair rest
  end.


(** The repair as the comment in the script and the specification word it:
    only the backslashes that do not start a legal escape are doubled, and a
    legal escape - the backslash and the character after it - is copied as it
    is. *)
Fixpoint repair_keeping_escapes (skip : bool) (s : pystr) : pystr :=
  match s with
  | [] => []
  | c :: rest =>
      if skip then c :: repair_keeping_escapes false rest
      else if N.eqb c backslash
      then (if not_followed_by_escape rest
            then backslash :: backslash :: repair_keeping_escapes false rest
            else c :: repair_keeping_escapes true rest)
      else c :: repair_keeping_escapes false rest
  end.

(** A JSON text written with apostrophes in the place of its double
    quotes. *)
Definition json_text (s : string) : pystr :=
  List.map (fun c => if N.eqb c 39 then dquote else c) (str s).

(** ** Statements, events and runs *)

Inductive stmt :=
| CreateTable (table : pystr) (fields : list pystr)
| InsertRow (table : pystr) (cols : list pystr) (values : list pyval).

(** What the script prints. *)
Inductive message :=
| MsgStillFailed (e : exn)
| MsgPreview (text : pystr)
| MsgCleanedColumns (cols : list pystr)
| MsgTableCreated (table : pystr)
| MsgInsertError (row : list pyval) (e : exn)
| MsgInserted.

(** What the script does to the outside, in order: what it prints and what
    it asks of the database ([Execute] records the error the database
    answered, if any). *)
Inductive event :=
| Print (m : message)
| Execute (s : stmt) (error : option pystr)
| Commit
| CursorClose
| ConnClose.

(** The database: given what happened so far, whether it refuses a
    statement, and with which message. *)
Definition database := list event -> stmt -> option pystr.

(** A step of the script: from the events so far to the events after it and
    its outcome. *)
Definition action (A : Type) := list event -> list event * result A.

Definition ret {A : Type} (a : A) : action A := fun log => (log, Ok a).

Definition throw {A : Type} (e : exn) : action A := fun log => (log, Raise e).

Definition lift {A : Type} (c : result A) : action A := fun log => (log, c).

Definition then_ {A B : Type} (c : action A) (k : A -> action B) : action B :=
  fun log =>
    match c log with
    | (log', Ok a) => k a log'
    | (log', Raise e) => (log', Raise e)
    end.

Notation "x <~ c ;; k" := (then_ c (fun x => k))
  (at level 61, c at next level, right associativity).
Notation "c ;;; k" := (then_ c (fun _ => k))
  (at level 61, right associativity).

(** [try: c except Exception as e: handler(e)] *)
Definition try_except {A : Type} (c : action A) (handler : exn -> action A) : action A :=
  fun log =>
    match c log with
    | (log', Ok a) => (log', Ok a)
    | (log', Raise e) => handler e log'
    end.

Definition emit (e : event) : action unit := fun log => (log ++ [e], Ok tt).

Definition print (m : message) : action unit := emit (Print m).

(** [for x in xs: body(x)] *)
Fixpoint for_each {A : Type} (xs : list A) (body : A -> action unit) : action unit :=
  match xs with
  | [] => ret tt
  | x :: xs' => body x ;;; for_each xs' body
  end.

(** A list comprehension whose element expression may raise. *)
Fixpoint map_result {A B : Type} (f : A -> result B) (xs : list A) : result (list B) :=
  match xs with
  | [] => Ok []
  | x :: xs' => y <- f x ;; ys <- map_result f xs' ;; Ok (y :: ys)
  end.

(** [enumerate(xs)] *)
Definition enumerate {A : Type} (xs : list A) : list (nat * A) :=
  combine (seq 0 (List.length xs)) xs.

(** ** The pipeline *)
Section Pipeline.
Variable H : Host.
Variable db : database.

(** [cur.execute(statement)] *)
Definition execute (s : stmt) : action unit :=
  fun log =>
    match db log s with
    | None => (log ++ [Execute s None], Ok tt)
    | Some msg => (log ++ [Execute s (Some msg)], Raise (DatabaseError msg))
    end.

(** Step 2: the strict parse, and on [JSONDecodeError] the repair pass and
    one more parse; a second failure is printed and raised again.  The
    repair pass is a parameter, so that a result that does not depend on
    it shows that the pass was not run. *)
Definition decode_with (repair_pass : pystr -> pystr) (text : pystr) : action json :=
  match json_loads text with
  | Ok data => ret data
  | Raise JSONDecodeError =>
      let cleaned_text := repair_pass text in
      match json_loads cleaned_text with
      | Ok data => ret data
      | Raise e =>
          print (MsgStillFailed e) ;;;
          print (MsgPreview (firstn 500 cleaned_text)) ;;;
          throw e
      end
  | Raise e => throw e
  end.

Definition decode : pystr -> action json := decode_with repair.

(** Step 3, on the documents whose table is certain: a list of flat
    records whose values are strings, nulls or lists, or one such record.
    The columns are the keys in order of first appearance; a record
    without a key gets NaN there. *)
Definition flat_cell (j : json) : option pyval :=
  match j with
  | JStr s => Some (PStr s)
  | JNull => Some PNone
  | JArr items => Some (PList items)
  | _ => None
  end.

Definition is_flat_record (j : json) : bool :=
  match j with
  | JObj (kv :: members) =>
      forallb (fun kv => match flat_cell (snd kv) with Some _ => true | None => false end)
              (kv :: members)
  | _ => false
  end.

Definition record_items (j : json) : list (pystr * json) :=
  match j with
  | JObj members => members
  | _ => []
  end.

Fixpoint dict_get (k : pystr) (d : list (pystr * json)) : option json :=
  match d with
  | [] => None
  | (k', v) :: d' => if pystr_eqb k k' then Some v else dict_get k d'
  end.

Definition add_label (cols : list pystr) (k : pystr) : list pystr :=
  if mem k cols then cols else cols ++ [k].

Definition frame_of_records (records : list (list (pystr * json))) : frame :=
  let cols := fold_left (fun cols r => fold_left add_label (List.map fst r) cols)
                        records [] in
  {| columns := cols;
     rows := List.map (fun r =>
               List.map (fun c =>
                 match dict_get c r with
                 | Some j => match flat_cell j with
                             | Some v => v
                             | None => PNone
                             end
                 | None => PFloat S754_nan
                 end) cols) records |}.

Definition json_normalize (data : json) : result frame :=
  match data with
  | JArr [] => Ok {| columns := []; rows := [] |}
  | JArr items =>
      if forallb is_flat_record items
      then Ok (frame_of_records (List.map record_items items))
      else json_normalize_other H data
  | JObj _ =>
      if is_flat_record data
      then Ok (frame_of_records [record_items data])
      else json_normalize_other H data
  | _ => json_normalize_other H data
  end.

(** Step 4: [df.columns = cleaned_columns] *)
Definition rename_columns (df : frame) : result frame :=
  match dedup_columns H (columns df) with
  | Some cleaned_columns => Ok {| columns := cleaned_columns; rows := rows df |}
  | None => Raise LoopBound
  end.

Definition table_name : pystr := str "sales_data".

(** Step 6: for each column its name between double quotes, a space and
    its inferred type. *)
Definition columns_with_types (cols : list pystr) : list pystr :=
  List.map (fun col => [dquote] ++ col ++ [dquote] ++ str " " ++ infer_pg_type H col) cols.

(** The identifier that a column definition starts with: the text between
    its first two double quotes. *)
Definition quoted_identifier (field : pystr) : option pystr :=
  match field with
  | c :: rest =>
      if N.eqb c dquote
      then match span (fun x => negb (N.eqb x dquote)) rest with
           | (name, q :: _) => if N.eqb q dquote then Some name else None
           | (_, []) => None
           end
      else None
  | [] => None
  end.

(** Step 7: [pd.to_datetime(df['BillDate'], errors='coerce').dt.date], on
    the columns whose result is certain: ISO calendar dates and missing
    values only. *)
Definition iso_cell (v : pyval) : option pyval :=
  if is_missing_cell v then Some PNaT
  else match v with
       | PStr s => option_map PDate (iso_date s)
       | _ => None
       end.

Fixpoint all_some {A : Type} (xs : list (option A)) : option (list A) :=
  match xs with
  | [] => Some []
  | Some x :: xs' => option_map (cons x) (all_some xs')
  | None :: _ => None
  end.

Definition to_dates (cells : list pyval) : result (list pyval) :=
  match all_some (List.map iso_cell cells) with
  | Some dates => Ok dates
  | None => to_datetime_column H cells
  end.

Fixpoint index_of (k : pystr) (cols : list pystr) : option nat :=
  match cols with
  | [] => None
  | c :: cols' => if pystr_eqb k c then Some 0 else option_map S (index_of k cols')
  end.

Fixpoint set_nth (i : nat) (v : pyval) (row : list pyval) : list pyval :=
  match row, i with
  | [], _ => []
  | _ :: row', O => v :: row'
  | x :: row', S i' => x :: set_nth i' v row'
  end.

Definition clean_bill_date (df : frame) : result frame :=
  match index_of (str "BillDate") (columns df) with
  | None => Ok df
  | Some i =>
      dates <- to_dates (List.map (fun row => nth i row PNone) (rows df)) ;;
      Ok {| columns := columns df;
            rows := List.map (fun rd => set_nth i (snd rd) (fst rd))
                             (combine (rows df) dates) |}
  end.

(** The dictionary [column_types], from each column to its inferred type. *)
Definition column_types (cols : list pystr) : list (pystr * pystr) :=
  List.map (fun col => (col, infer_pg_type H col)) cols.

Fixpoint lookup (k : pystr) (d : list (pystr * pystr)) : result pystr :=
  match d with
  | [] => Raise KeyError
  | (k', v) :: d' => if pystr_eqb k k' then Ok v else lookup k d'
  end.

(** The key of a type: its text before the first parenthesis, lower-cased. *)
Definition type_key (pg_type : pystr) : pystr :=
  lower H (fst (span (fun c => negb (N.eqb c 40)) pg_type)).

(** The comprehension that builds [cleaned_row]. *)
Definition clean_row (cols : list pystr) (row : list pyval) : result (list pyval) :=
  map_result (fun iv =>
    match nth_error cols (fst iv) with
    | Some col =>
        t <- lookup col (column_types cols) ;;
        clean_value H (snd iv) (type_key t)
    | None => Raise IndexError
    end) (enumerate row).

(** Step 9, one iteration. *)
Definition insert_row (cols : list pystr) (row : list pyval) : action unit :=
  cleaned_row <~ lift (clean_row cols row) ;;
  try_except (execute (InsertRow table_name cols cleaned_row))
             (fun e => print (MsgInsertError cleaned_row e)).

(** Steps 9 and 10. *)
Definition insert_rows (df : frame) : action unit :=
  for_each (rows df) (insert_row (columns df)) ;;;
  emit Commit ;;;
  emit CursorClose ;;;
  emit ConnClose ;;;
  print MsgInserted.

(** Steps 4 to 10, from the table of step 3. *)
Definition load (df : frame) : action unit :=
  df <~ lift (rename_columns df) ;;
  print (MsgCleanedColumns (columns df)) ;;;
  execute (CreateTable table_name (columns_with_types (columns df))) ;;;
  emit Commit ;;;
  print (MsgTableCreated table_name) ;;;
  df <~ lift (clean_bill_date df) ;;
  insert_rows df.

(** The script, from the body of the response. *)
Definition pipeline (text : pystr) : action unit :=
  data <~ decode text ;;
  df <~ lift (json_normalize data) ;;
  load df.

Definition run (text : pystr) : list event * result unit := pipeline text [].
End Pipeline.

(** The events of the insertion loop for the cleaned rows, in order: each
    row is executed once, and a refusal is followed by the print of the row
    and of the error. *)
Inductive insert_trace (cols : list pystr) : list (list pyval) -> list event -> Prop :=
| trace_done : insert_trace cols [] []
| trace_inserted (row : list pyval) (rows : list (list pyval)) (evs : list event) :
    insert_trace cols rows evs ->
    insert_trace cols (row :: rows)
                 (Execute (InsertRow table_name cols row) None :: evs)
| trace_refused (row : list pyval) (msg : pystr) (rows : list (list pyval))
                (evs : list event) :
    insert_trace cols rows evs ->
    insert_trace cols (row :: rows)
                 (Execute (InsertRow table_name cols row) (Some msg)
                  :: Print (MsgInsertError row (DatabaseError msg)) :: evs).

(** A table whose rows have a cell per column. *)
Definition rectangular (df : frame) : Prop :=
  Forall (fun row => List.length row = List.length (columns df)) (rows df).

(** A table without list-valued cells. *)
Definition scalar_cells (df : frame) : Prop :=
  Forall (Forall (fun v => is_list_cell v = false)) (rows df).

(** The row that the loop sends for a row of the table: each cell coerced
    to the type inferred for its column. *)
Definition coerced_row (H : Host) (cols : list pystr) (row : list pyval) : list pyval :=
  List.map (fun cv => coerce H (snd cv) (type_key H (infer_pg_type H (fst cv))))
           (combine cols row).

(** The cells of the column BillDate, when the table has one, are missing
    values and ISO calendar dates. *)
Definition iso_bill_dates (cols : list pystr) (rows : list (list pyval)) : Prop :=
  match index_of (str "BillDate") cols with
  | Some i => Forall (fun row => iso_cell (nth i row PNone) <> None) rows
  | None => True
  end.


(** The events that execute an INSERT. *)
Definition is_insert (ev : event) : bool :=
  match ev with
  | Execute (InsertRow _ _ _) _ => true
  | _ => false
  end.

(** A database that takes every statement. *)
Definition accepting : database := fun _ _ => None.

(** A database that refuses the rows whose first value is NULL. *)
Definition refuses_null : database :=
  fun _ s =>
    match s with
    | InsertRow _ _ (PNone :: _) => Some (str "null value violates not-null constraint")
    | _ => None
    end.

(** The rows a table holds after the events: an [INSERT] that was not
    refused adds its row, and a [Commit] makes the rows added so far
    permanent. *)
Fixpoint committed_rows (table : pystr) (pending done : list (list (pystr * pyval)))
         (log : list event) : list (list (pystr * pyval)) :=
  match log with
  | [] => done
  | Execute (InsertRow t cols values) None :: log' =>
      if pystr_eqb t table
      then committed_rows table (pending ++ [combine cols values]) done log'
      else committed_rows table pending done log'
  | Commit :: log' => committed_rows table [] (done ++ pending) log'
  | _ :: log' => committed_rows table pending done log'
  end.

(** The column definitions of the table the events create. *)
Fixpoint created_fields (table : pystr) (log : list event) : option (list pystr) :=
  match log with
  | [] => None
  | Execute (CreateTable t fields) None :: log' =>
      if pystr_eqb t table then Some fields else created_fields table log'
  | _ :: log' => created_fields table log'
  end.


(** * Properties *)

(** Splits a conjunction into its parts, leaving equivalences whole. *)
Ltac conjs := repeat match goal with |- _ /\ _ => split end.

(** ** Text *)

Lemma pystr_eqb_eq (a b : pystr) : pystr_eqb a b = true <-> a = b.
Proof.
  unfold pystr_eqb. destruct (list_eq_dec N.eq_dec a b); split; congruence.
Qed.

Lemma pystr_eqb_refl (a : pystr) : pystr_eqb a a = true.
Proof. now apply pystr_eqb_eq. Qed.

Lemma pystr_eqb_neq (a b : pystr) : pystr_eqb a b = false <-> a <> b.
Proof.
  unfold pystr_eqb. destruct (list_eq_dec N.eq_dec a b); split; congruence.
Qed.

Lemma mem_In (x : pystr) (xs : list pystr) : mem x xs = true <-> In x xs.
Proof.
  unfold mem. rewrite existsb_exists. split.
  - intros [y [Hy He]]. apply pystr_eqb_eq in He. now subst.
  - intros Hx. exists x. split; [assumption | apply pystr_eqb_refl].
Qed.

Lemma mem_not_In (x : pystr) (xs : list pystr) : mem x xs = false <-> ~ In x xs.
Proof.
  rewrite <- mem_In. destruct (mem x xs); split; congruence.
Qed.

Lemma starts_with_spec (p s : pystr) :
  starts_with p s = true <-> exists post, s = p ++ post.
Proof.
  revert s. induction p as [|a p IH]; intros s; simpl.
  - split; [intros _; now exists s | reflexivity].
  - destruct s as [|b s].
    + split; [discriminate | intros [post Hp]; discriminate].
    + rewrite andb_true_iff, N.eqb_eq, IH. split.
      * intros [-> [post ->]]. now exists post.
      * intros [post Hp]. injection Hp as -> ->. split; [reflexivity | now exists post].
Qed.

(** [contains] is substring search. *)
Lemma contains_spec (sub s : pystr) :
  contains sub s = true <-> exists pre post, s = pre ++ sub ++ post.
Proof.
  induction s as [|c s IH].
  - simpl. rewrite orb_false_r, starts_with_spec. split.
    + intros [post Hp]. now exists [], post.
    + intros [pre [post Hp]]. destruct pre; [now exists post | discriminate].
  - change (contains sub (c :: s)) with (starts_with sub (c :: s) || contains sub s).
    rewrite orb_true_iff, starts_with_spec, IH. split.
    + intros [[post Hp] | [pre [post Hp]]].
      * now exists [], post.
      * exists (c :: pre), post. simpl. now f_equal.
    + intros [pre [post Hp]]. destruct pre as [|d pre].
      * left. now exists post.
      * right. injection Hp as _ Hp. now exists pre, post.
Qed.

Lemma contains_pair_cons (a b x : N) (r : pystr) :
  contains [a; b] (x :: r) =
  (N.eqb a x && match r with [] => false | y :: _ => N.eqb b y end)
  || contains [a; b] r.
Proof.
  change (contains [a; b] (x :: r)) with (starts_with [a; b] (x :: r) || contains [a; b] r).
  f_equal. destruct r as [|y r]; cbn [starts_with]; [reflexivity|].
  now rewrite andb_true_r.
Qed.

Lemma lstrip_split (p : N -> bool) (s : pystr) :
  exists pre, s = pre ++ lstrip p s /\ Forall (fun c => p c = true) pre.
Proof.
  induction s as [|c s [pre [He Hf]]]; simpl.
  - now exists [].
  - destruct (p c) eqn:Hc.
    + exists (c :: pre). split; [simpl; now f_equal | now constructor].
    + now exists [].
Qed.

Lemma lstrip_head (p : N -> bool) (s : pystr) (c : N) :
  hd_error (lstrip p s) = Some c -> p c = false.
Proof.
  induction s as [|d s IH]; simpl; [discriminate|].
  destruct (p d) eqn:Hd; [exact IH|]. simpl. now intros [= <-].
Qed.

Lemma strip_split (p : N -> bool) (s : pystr) :
  exists pre post, s = pre ++ strip p s ++ post /\
                   Forall (fun c => p c = true) pre /\
                   Forall (fun c => p c = true) post.
Proof.
  unfold strip, rstrip.
  destruct (lstrip_split p s) as [pre [He Hf]].
  destruct (lstrip_split p (rev (lstrip p s))) as [post' [He' Hf']].
  exists pre, (rev post'). split; [|split].
  - rewrite <- rev_app_distr, <- He', rev_involutive. exact He.
  - exact Hf.
  - now apply Forall_rev.
Qed.

Lemma strip_head (p : N -> bool) (s : pystr) (c : N) :
  hd_error (strip p s) = Some c -> p c = false.
Proof.
  unfold strip, rstrip. intros Hh.
  destruct (lstrip_split p (rev (lstrip p s))) as [post [He _]].
  apply (f_equal (@rev N)) in He. rewrite rev_involutive, rev_app_distr in He.
  apply (lstrip_head p s). rewrite He.
  destruct (rev (lstrip p (rev (lstrip p s)))); [discriminate | exact Hh].
Qed.

Lemma strip_last (p : N -> bool) (s : pystr) (c : N) :
  last_error (strip p s) = Some c -> p c = false.
Proof.
  unfold last_error, strip, rstrip. rewrite rev_involutive. apply lstrip_head.
Qed.

Lemma last_error_app (s : pystr) (c : N) : last_error (s ++ [c]) = Some c.
Proof. unfold last_error. now rewrite rev_app_distr. Qed.

Lemma last_error_cons (c d : N) (s : pystr) :
  last_error (c :: d :: s) = last_error (d :: s).
Proof.
  unfold last_error. cbn [rev].
  destruct (rev s ++ [d]) eqn:Hr; [|reflexivity].
  now destruct (rev s).
Qed.

(** Injectivity of the literals and of the decimal rendering. *)
Lemma str_inj (a b : string) : str a = str b -> a = b.
Proof.
  unfold str. intros He.
  rewrite <- (string_of_list_ascii_of_string a), <- (string_of_list_ascii_of_string b).
  f_equal. revert He.
  generalize (list_ascii_of_string a) (list_ascii_of_string b).
  induction l as [|x l IH]; intros [|y l']; simpl; try discriminate; [reflexivity|].
  intros [= Hx Hl]. f_equal; [|now apply IH].
  rewrite <- (ascii_N_embedding x), <- (ascii_N_embedding y). now f_equal.
Qed.

Lemma str_of_nat_inj (a b : nat) : str_of_nat a = str_of_nat b -> a = b.
Proof.
  unfold str_of_nat. intros He. apply str_inj in He.
  assert (Hs : Some (Nat.to_uint a) = Some (Nat.to_uint b)).
  { rewrite <- !NilEmpty.usu. now f_equal. }
  injection Hs as Hs.
  rewrite <- (Unsigned.of_to a), <- (Unsigned.of_to b). now f_equal.
Qed.

Lemma suffixed_inj (base : pystr) (a b : nat) :
  suffixed base a = suffixed base b -> a = b.
Proof.
  unfold suffixed. intros He. apply app_inv_head in He. simpl in He.
  injection He as He. now apply str_of_nat_inj.
Qed.

(** ** Column sanitizer *)
Section SanitizerProps.
Variable H : Host.

Lemma is_alnum_underscore : is_alnum H underscore = false.
Proof. reflexivity. Qed.

Lemma is_word_underscore : is_word H underscore = true.
Proof. reflexivity. Qed.

Lemma sub_nonword_word (col : pystr) :
  Forall (fun c => is_word H c = true) (sub_nonword H col).
Proof.
  unfold sub_nonword. induction col as [|c col IH]; simpl; constructor; auto.
  destruct (is_word H c) eqn:Hc; [exact Hc | apply is_word_underscore].
Qed.

Lemma sub_nonword_ascii (col : pystr) :
  Forall (fun c => is_ascii c = true) col ->
  Forall (fun c => is_ascii_word c = true) (sub_nonword H col).
Proof.
  unfold sub_nonword. induction 1 as [|c col Hc _ IH]; simpl; constructor; auto.
  unfold is_word. rewrite Hc. destruct (is_ascii_word c) eqn:Hw; [exact Hw | reflexivity].
Qed.

Lemma sub_nonword_alnum (col : pystr) :
  filter (is_alnum H) (sub_nonword H col) = filter (is_alnum H) col.
Proof.
  unfold sub_nonword, is_alnum. induction col as [|c col IH]; simpl; [reflexivity|].
  destruct (is_word H c) eqn:Hc; simpl.
  - rewrite Hc. simpl. now rewrite IH.
  - exact IH.
Qed.

Lemma sub_underscores_from_incl (b : bool) (s : pystr) (P : N -> Prop) :
  Forall P s -> Forall P (sub_underscores_from b s).
Proof.
  intros Hs. revert b. induction Hs as [|c s Hc _ IH]; intros b; simpl; [constructor|].
  destruct (N.eqb c underscore) eqn:He.
  - apply N.eqb_eq in He. subst c. destruct b; [apply IH | constructor; [exact Hc | apply IH]].
  - constructor; [exact Hc | apply IH].
Qed.

Lemma sub_underscores_from_alnum (b : bool) (s : pystr) :
  filter (is_alnum H) (sub_underscores_from b s) = filter (is_alnum H) s.
Proof.
  revert b. induction s as [|c s IH]; intros b; [reflexivity|].
  cbn [sub_underscores_from filter].
  destruct (N.eqb c underscore) eqn:He.
  - apply N.eqb_eq in He. subst c. rewrite is_alnum_underscore.
    destruct b; [apply IH|]. cbn [filter]. rewrite is_alnum_underscore. apply IH.
  - cbn [filter]. destruct (is_alnum H c); [now rewrite IH | apply IH].
Qed.

(** After the collapse no two underscores are adjacent, and a scan that
    starts inside a run emits no leading underscore. *)
Lemma sub_underscores_from_head (s : pystr) :
  hd_error (sub_underscores_from true s) <> Some underscore.
Proof.
  induction s as [|c s IH]; simpl; [discriminate|].
  destruct (N.eqb c underscore) eqn:He; [exact IH|].
  simpl. intros [= ->]. discriminate.
Qed.

Lemma sub_underscores_from_single (b : bool) (s : pystr) :
  contains [underscore; underscore] (sub_underscores_from b s) = false.
Proof.
  revert b. induction s as [|c s IH]; intros b; [reflexivity|].
  cbn [sub_underscores_from].
  destruct (N.eqb c underscore) eqn:He.
  - destruct b; [apply IH|].
    rewrite contains_pair_cons, IH, orb_false_r.
    pose proof (sub_underscores_from_head s) as Hh.
    destruct (sub_underscores_from true s) as [|d r]; [apply andb_false_r|].
    destruct (N.eqb underscore d) eqn:Hd; [|apply andb_false_r].
    apply N.eqb_eq in Hd. subst d. now elim Hh.
  - rewrite contains_pair_cons, IH, orb_false_r, N.eqb_sym, He. reflexivity.
Qed.

Lemma lstrip_alnum (s : pystr) :
  filter (is_alnum H) (lstrip (N.eqb underscore) s) = filter (is_alnum H) s.
Proof.
  induction s as [|c s IH]; [reflexivity|]. cbn [lstrip filter].
  destruct (N.eqb underscore c) eqn:He; [|reflexivity].
  apply N.eqb_eq in He. subst c. rewrite is_alnum_underscore. exact IH.
Qed.

Lemma strip_alnum (s : pystr) :
  filter (is_alnum H) (strip (N.eqb underscore) s) = filter (is_alnum H) s.
Proof.
  unfold strip, rstrip.
  rewrite <- (rev_involutive (filter _ (rev _))), <- filter_rev, rev_involutive.
  rewrite lstrip_alnum, filter_rev, rev_involutive. apply lstrip_alnum.
Qed.

Lemma clean_column_unfold (col : pystr) :
  clean_column H col =
  if mem (lower H (stripped H col)) postgres_reserved_keywords
  then stripped H col ++ [underscore] else stripped H col.
Proof. reflexivity. Qed.

Lemma stripped_word (col : pystr) (P : N -> Prop) :
  Forall P (sub_nonword H col) -> Forall P (stripped H col).
Proof.
  intros Hw. unfold stripped.
  destruct (strip_split (N.eqb underscore) (sub_underscores (sub_nonword H col)))
    as [pre [post [He _]]].
  apply (sub_underscores_from_incl false) in Hw. fold (sub_underscores (sub_nonword H col)) in Hw.
  rewrite He in Hw. apply Forall_app in Hw as [_ Hw]. now apply Forall_app in Hw as [Hw _].
Qed.

Lemma stripped_head (col : pystr) : hd_error (stripped H col) <> Some underscore.
Proof.
  intros Hh. apply strip_head in Hh. discriminate.
Qed.

Lemma stripped_last (col : pystr) : last_error (stripped H col) <> Some underscore.
Proof.
  intros Hh. apply strip_last in Hh. discriminate.
Qed.

Lemma stripped_single (col : pystr) :
  contains [underscore; underscore] (stripped H col) = false.
Proof.
  destruct (contains _ (stripped H col)) eqn:Hc; [|reflexivity].
  apply contains_spec in Hc as [a [b Hc]].
  destruct (strip_split (N.eqb underscore) (sub_underscores (sub_nonword H col)))
    as [pre [post [He _]]].
  fold (stripped H col) in He. rewrite Hc in He.
  pose proof (sub_underscores_from_single false (sub_nonword H col)) as Hs.
  fold (sub_underscores (sub_nonword H col)) in Hs.
  assert (Ht : contains [underscore; underscore] (sub_underscores (sub_nonword H col)) = true).
  { apply contains_spec. exists (pre ++ a), (b ++ post). rewrite He.
    now rewrite <- !app_assoc. }
  congruence.
Qed.

Lemma stripped_alnum (col : pystr) :
  filter (is_alnum H) (stripped H col) = filter (is_alnum H) col.
Proof.
  unfold stripped, sub_underscores.
  now rewrite strip_alnum, sub_underscores_from_alnum, sub_nonword_alnum.
Qed.
End SanitizerProps.

Section CleanColumn.
Variable H : Host.

Lemma lower_nil : lower H [] = [].
Proof. reflexivity. Qed.

Lemma no_pair_snoc (s : pystr) :
  contains [underscore; underscore] s = false ->
  last_error s <> Some underscore ->
  contains [underscore; underscore] (s ++ [underscore]) = false.
Proof.
  induction s as [|c s IH]; intros Hc Hl; [reflexivity|].
  rewrite contains_pair_cons in Hc. apply orb_false_iff in Hc as [Hp Hc].
  change ((c :: s) ++ [underscore]) with (c :: (s ++ [underscore])).
  rewrite contains_pair_cons. apply orb_false_iff. split.
  - destruct s as [|d s].
    + cbn [app]. destruct (N.eqb underscore c) eqn:He; [|reflexivity].
      apply N.eqb_eq in He. subst c. now elim Hl.
    + exact Hp.
  - destruct s as [|d s]; [reflexivity|]. apply IH; [exact Hc|].
    now rewrite last_error_cons in Hl.
Qed.

(** ** C2, as amended *)

(** C2 (amended): for every input string the output of [clean_column]
    consists of word characters only (of [[A-Za-z0-9_]] only when the input
    is ASCII), does not start with an underscore, holds no two consecutive
    underscores, and ends with an underscore exactly when the name, lower
    cased, is a reserved keyword - the output is then the name followed by
    that one underscore. *)
Theorem clean_column_shape (col : pystr) :
  Forall (fun c => is_word H c = true) (clean_column H col) /\
  (Forall (fun c => is_ascii c = true) col ->
   Forall (fun c => is_ascii_word c = true) (clean_column H col)) /\
  hd_error (clean_column H col) <> Some underscore /\
  contains [underscore; underscore] (clean_column H col) = false /\
  (last_error (clean_column H col) = Some underscore <->
   mem (lower H (stripped H col)) postgres_reserved_keywords = true) /\
  (last_error (clean_column H col) = Some underscore ->
   clean_column H col = stripped H col ++ [underscore] /\
   last_error (stripped H col) <> Some underscore).
Proof.
  rewrite clean_column_unfold.
  pose proof (stripped_head H col) as Hh.
  pose proof (stripped_last H col) as Hl.
  pose proof (stripped_single H col) as Hs.
  pose proof (stripped_word H col _ (sub_nonword_word H col)) as Hw.
  destruct (mem (lower H (stripped H col)) postgres_reserved_keywords) eqn:Hm.
  - assert (Hne : stripped H col <> []).
    { intros He. rewrite He, lower_nil in Hm. discriminate. }
    conjs.
    + apply Forall_app. split; [exact Hw|]. constructor; [reflexivity | constructor].
    + intros Ha. apply Forall_app. split.
      * apply stripped_word. now apply sub_nonword_ascii.
      * constructor; [reflexivity | constructor].
    + destruct (stripped H col); [now elim Hne | exact Hh].
    + now apply no_pair_snoc.
    + split; [reflexivity | intros _; apply last_error_app].
    + intros _. split; [reflexivity | exact Hl].
  - conjs.
    + exact Hw.
    + intros Ha. apply stripped_word. now apply sub_nonword_ascii.
    + exact Hh.
    + exact Hs.
    + split; [intros He; now elim Hl | discriminate].
    + intros He. now elim Hl.
Qed.

(** ** C9 *)

(** C9: [clean_column] preserves the letter case of every character it
    keeps: the alphanumeric characters of the output are those of the
    input, in the same order and unchanged, and any other character of the
    output is an underscore. *)
Theorem clean_column_preserves_case (col : pystr) :
  filter (is_alnum H) (clean_column H col) = filter (is_alnum H) col /\
  Forall (fun c => c = underscore \/ In c col) (clean_column H col).
Proof.
  rewrite clean_column_unfold.
  assert (Hin : Forall (fun c => c = underscore \/ In c col) (stripped H col)).
  { apply stripped_word. unfold sub_nonword. apply Forall_forall.
    intros c Hc. apply in_map_iff in Hc as [x [Hx Hi]].
    destruct (is_word H x); subst; auto. }
  destruct (mem _ _); split.
  - rewrite filter_app, stripped_alnum. cbn [filter].
    rewrite is_alnum_underscore. apply app_nil_r.
  - apply Forall_app. split; [exact Hin | constructor; [now left | constructor]].
  - apply stripped_alnum.
  - exact Hin.
Qed.

(** ** C10 *)

Lemma stripped_no_word (col : pystr) :
  Forall (fun c => is_word H c = false) col -> stripped H col = [].
Proof.
  intros Hn.
  assert (Hu : Forall (fun c => c = underscore) (stripped H col)).
  { apply stripped_word. unfold sub_nonword. apply Forall_forall.
    intros c Hc. apply in_map_iff in Hc as [x [Hx Hi]].
    rewrite Forall_forall in Hn. now rewrite (Hn x Hi) in Hx. }
  pose proof (stripped_head H col) as Hh.
  destruct (stripped H col) as [|c s]; [reflexivity|].
  apply Forall_inv in Hu. subst c. now elim Hh.
Qed.

(** C10: a column name without any word character is cleaned to the empty
    string; the de-duplication step passes that empty name on, and the
    column definition generated for it has an empty identifier. *)
Theorem clean_column_no_word_chars (col : pystr) :
  Forall (fun c => is_word H c = false) col ->
  clean_column H col = [] /\
  dedup_columns H [col] = Some [[]] /\
  option_map (columns_with_types H) (dedup_columns H [col])
  = Some [[dquote; dquote] ++ str " TEXT"].
Proof.
  intros Hn.
  assert (Hc : clean_column H col = []).
  { rewrite clean_column_unfold, (stripped_no_word col Hn). reflexivity. }
  assert (Hd : dedup_columns H [col] = Some [[]]).
  { unfold dedup_columns. cbn [dedup_loop dedup_step]. rewrite Hc. reflexivity. }
  conjs; [exact Hc | exact Hd | rewrite Hd; reflexivity].
Qed.
End CleanColumn.

(** ** De-duplication *)
Section DedupProps.
Variable H : Host.

Lemma mem_ext (x : pystr) (a b : list pystr) :
  (forall y, In y a <-> In y b) -> mem x a = mem x b.
Proof.
  intros Hab. destruct (mem x b) eqn:Hb.
  - apply mem_In. apply Hab. now apply mem_In.
  - apply mem_not_In. intros Ha. apply Hab in Ha. apply mem_In in Ha. congruence.
Qed.

(** What the [while] loop returns, when it returns. *)
Lemma next_suffix_sound (fuel : nat) (seen : list pystr) (base : pystr) :
  forall s k, next_suffix fuel seen base s = Some k ->
    s <= k /\ mem (suffixed base k) seen = false /\
    forall j, s <= j < k -> mem (suffixed base j) seen = true.
Proof.
  induction fuel as [|fuel IH]; intros s k; cbn [next_suffix];
    destruct (mem (suffixed base s) seen) eqn:Hm; try discriminate.
  - intros [= <-]. conjs; [lia | exact Hm | lia].
  - intros Hk. apply IH in Hk as [Hle [Hk Hlt]]. conjs; [lia | exact Hk |].
    intros j Hj. destruct (Nat.eq_dec j s) as [-> | Hne]; [exact Hm | apply Hlt; lia].
  - intros [= <-]. conjs; [lia | exact Hm | lia].
Qed.

(** The loop returns as soon as a free suffix lies within the bound. *)
Lemma next_suffix_returns (fuel : nat) (seen : list pystr) (base : pystr) :
  forall s, (exists j, s <= j <= s + fuel /\ mem (suffixed base j) seen = false) ->
    exists k, next_suffix fuel seen base s = Some k.
Proof.
  induction fuel as [|fuel IH]; intros s [j [Hj Hf]]; cbn [next_suffix];
    destruct (mem (suffixed base s) seen) eqn:Hm; eauto.
  - assert (j = s) by lia. subst j. congruence.
  - apply IH. exists j. split; [|exact Hf].
    destruct (Nat.eq_dec j s) as [-> | Hne]; [congruence | lia].
Qed.

(** Among the suffixes 1 .. |seen| + 1 one gives a name that is not in
    [seen]: the candidate names are pairwise distinct. *)
Lemma free_suffix_exists (seen : list pystr) (base : pystr) :
  exists j, 1 <= j <= 1 + List.length seen /\ mem (suffixed base j) seen = false.
Proof.
  set (cands := seq 1 (S (List.length seen))).
  destruct (existsb (fun j => negb (mem (suffixed base j) seen)) cands) eqn:He.
  - apply existsb_exists in He as [j [Hj Hm]]. apply in_seq in Hj.
    exists j. split; [lia | now apply negb_true_iff].
  - exfalso.
    assert (Hinc : incl (List.map (suffixed base) cands) seen).
    { intros x Hx. apply in_map_iff in Hx as [j [<- Hj]]. apply mem_In.
      destruct (mem (suffixed base j) seen) eqn:Hm; [reflexivity|].
      assert (Ht : existsb (fun j => negb (mem (suffixed base j) seen)) cands = true).
      { apply existsb_exists. exists j. now rewrite Hm. }
      congruence. }
    assert (Hnd : NoDup (List.map (suffixed base) cands)).
    { apply Injective_map_NoDup; [|apply seq_NoDup].
      intros a b. apply suffixed_inj. }
    apply NoDup_incl_length in Hinc; [|exact Hnd].
    rewrite length_map in Hinc. unfold cands in Hinc. rewrite length_seq in Hinc. lia.
Qed.

Lemma dedup_step_spec (acc seen : list pystr) (col : pystr) :
  dedup_inv (acc, seen) ->
  exists name,
    dedup_step H (acc, seen) col = Some (acc ++ [name], name :: seen) /\
    dedup_choice acc (clean_column H col) name /\
    dedup_inv (acc ++ [name], name :: seen).
Proof.
  intros [Hseen Hnd]. cbn [fst snd] in *.
  assert (Hmem : forall x, mem x seen = mem x acc) by (intros x; now apply mem_ext).
  assert (Hinv : forall name, mem name acc = false ->
                   dedup_inv (acc ++ [name], name :: seen)).
  { intros name Hn. split; cbn [fst snd].
    - intros x. rewrite in_app_iff. cbn [In]. rewrite Hseen. tauto.
    - apply NoDup_app; [exact Hnd | repeat constructor; intros [] |].
      intros x Hx [<- | []]. apply mem_not_In in Hn. contradiction. }
  cbn [dedup_step]. destruct (mem (clean_column H col) seen) eqn:Hm.
  - destruct (next_suffix_returns (List.length seen) seen (clean_column H col) 1
                (free_suffix_exists seen (clean_column H col))) as [k Hk].
    rewrite Hk. apply next_suffix_sound in Hk as [Hle [Hfree Hused]].
    exists (suffixed (clean_column H col) k). conjs.
    + reflexivity.
    + right. rewrite <- Hmem. split; [exact Hm|].
      exists k. conjs; [exact Hle | reflexivity | now rewrite <- Hmem |].
      intros j Hj. rewrite <- Hmem. now apply Hused.
    + apply Hinv. now rewrite <- Hmem.
  - exists (clean_column H col). conjs.
    + reflexivity.
    + left. now rewrite <- Hmem.
    + apply Hinv. now rewrite <- Hmem.
Qed.

Lemma dedup_loop_spec (cols : list pystr) :
  forall acc seen, dedup_inv (acc, seen) ->
    exists out seen',
      dedup_loop H (acc, seen) cols = Some (acc ++ out, seen') /\
      dedup_inv (acc ++ out, seen') /\
      List.length out = List.length cols /\
      forall i col, nth_error cols i = Some col ->
        exists name, nth_error out i = Some name /\
                     dedup_choice (acc ++ firstn i out) (clean_column H col) name.
Proof.
  induction cols as [|c cols IH]; intros acc seen Hinv.
  - exists [], seen. rewrite app_nil_r. conjs; [reflexivity | exact Hinv | reflexivity |].
    intros [|i] col; discriminate.
  - destruct (dedup_step_spec acc seen c Hinv) as [name [Hstep [Hch Hinv']]].
    destruct (IH _ _ Hinv') as [out [seen' [Hloop [Hinv'' [Hlen Hnth]]]]].
    exists (name :: out), seen'.
    cbn [dedup_loop]. rewrite Hstep, Hloop, <- app_assoc. conjs.
    + reflexivity.
    + now rewrite <- app_assoc in Hinv''.
    + cbn [List.length]. now rewrite Hlen.
    + intros [|i] col Hc; cbn [nth_error firstn] in *.
      * injection Hc as <-. exists name. rewrite app_nil_r. now split.
      * destruct (Hnth i col Hc) as [n [Hn Hch']]. exists n.
        rewrite <- app_assoc in Hch'. now split.
Qed.

(** ** C4 *)

(** C4: for every sequence of column names the de-duplication loop returns
    a sequence of the same length whose elements are pairwise distinct; the
    element at each index comes from the column at that index, and is its
    cleaned name when no earlier column was given that name, else the
    cleaned name with the least suffix [_1], [_2], ... that no earlier
    column was given. *)
Theorem dedup_columns_distinct (cols : list pystr) :
  exists out,
    dedup_columns H cols = Some out /\
    List.length out = List.length cols /\
    NoDup out /\
    forall i col, nth_error cols i = Some col ->
      exists name, nth_error out i = Some name /\
                   dedup_choice (firstn i out) (clean_column H col) name.
Proof.
  assert (Hinv : dedup_inv ([], [])).
  { split; [tauto | constructor]. }
  destruct (dedup_loop_spec cols [] [] Hinv) as [out [seen' [Hloop [[_ Hnd] [Hlen Hnth]]]]].
  exists out. unfold dedup_columns. rewrite Hloop. conjs; auto.
Qed.
End DedupProps.

(** ** Type inference *)
Section InferenceProps.
Variable H : Host.

Lemma existsb_map_str (names : list string) (s : pystr) :
  existsb (fun x => contains x s) (List.map str names) = contains_any names s.
Proof.
  unfold contains_any. induction names as [|n names IH]; [reflexivity|].
  cbn [List.map existsb]. now rewrite IH.
Qed.

Lemma infer_pg_type_rules (name : pystr) :
  infer_pg_type H name = infer_by_rules H name.
Proof.
  unfold infer_pg_type, infer_by_rules, first_match, type_rules.
  rewrite !existsb_map_str. cbn [find fst snd].
  destruct (contains (str "date") (lower H name)
            && negb (pystr_eqb (lower H name) (str "billmonth"))); [reflexivity|].
  destruct (contains (str "month") (lower H name)); [reflexivity|].
  destruct (contains_any ["qty"; "points"]%string (lower H name)); [reflexivity|].
  destruct (contains_any _ (lower H name)); reflexivity.
Qed.

(** ** C1 *)

(** C1: [infer_pg_type] is a function of the column name alone, through
    its lower-cased form: it is the first match of the ordered rules
    date-and-not-billmonth gives DATE, month gives TEXT, qty or points give
    INTEGER, amount, price, gst, disc, charges, percent or volume give
    NUMERIC(10,2), and TEXT otherwise; names with the same lower-cased form
    get the same type; and the five named columns get the stated types. *)
Theorem infer_pg_type_first_match :
  (forall name, infer_pg_type H name = infer_by_rules H name) /\
  (forall a b, lower H a = lower H b -> infer_pg_type H a = infer_pg_type H b) /\
  infer_pg_type H (str "GSTAmount") = str "NUMERIC(10,2)" /\
  infer_pg_type H (str "BillDate") = str "DATE" /\
  infer_pg_type H (str "BillMonth") = str "TEXT" /\
  infer_pg_type H (str "Qty") = str "INTEGER" /\
  infer_pg_type H (str "Description") = str "TEXT".
Proof.
  conjs; try reflexivity.
  - apply infer_pg_type_rules.
  - intros a b Hab. unfold infer_pg_type. now rewrite Hab.
Qed.

(** X7: the inferred type is one of DATE, TEXT, INTEGER and NUMERIC(10,2),
    and the keys under which [clean_value] knows them are date, text,
    integer and numeric. *)
Theorem infer_pg_type_range (name : pystr) :
  In (infer_pg_type H name)
     [str "DATE"; str "TEXT"; str "INTEGER"; str "NUMERIC(10,2)"] /\
  List.map (type_key H) [str "DATE"; str "TEXT"; str "INTEGER"; str "NUMERIC(10,2)"]
  = [str "date"; str "text"; str "integer"; str "numeric"].
Proof.
  split; [|reflexivity].
  unfold infer_pg_type.
  repeat match goal with
         | |- context [if ?b then _ else _] => destruct b
         end; cbn [In]; auto.
Qed.
End InferenceProps.

(** ** Concrete instances *)

(** C2, as stated, fails: the reserved word [order] is cleaned to [order_],
    which ends with an underscore, whatever the host tables are; and where
    the tables class a code point past ASCII as alphanumeric (here U+00E9),
    such a character is kept. *)
Lemma clean_column_trailing_underscore :
  (forall H, clean_column H (str "order") = str "order_") /\
  last_error (str "order_") = Some underscore /\
  clean_column latin1_host [233%N] = [233%N] /\
  is_ascii_word 233 = false.
Proof. conjs; reflexivity. Qed.

Lemma clean_column_shape_witness :
  Forall (fun c => is_ascii_word c = true) (clean_column latin1_host (str "Bill  Date (PKR)")) /\
  clean_column latin1_host (str "__Order__") = stripped latin1_host (str "__Order__") ++ [underscore].
Proof.
  pose proof (clean_column_shape latin1_host (str "Bill  Date (PKR)")) as [_ [Ha _]].
  pose proof (clean_column_shape latin1_host (str "__Order__")) as [_ [_ [_ [_ [_ Hb]]]]].
  split.
  - apply Ha. repeat constructor.
  - apply Hb. reflexivity.
Defined.

Lemma clean_column_no_word_chars_witness :
  Forall (fun c => is_word latin1_host c = false) (str "!!!") /\
  clean_column latin1_host (str "!!!") = [] /\
  dedup_columns latin1_host [str "!!!"] = Some [[]] /\
  option_map (columns_with_types latin1_host) (dedup_columns latin1_host [str "!!!"])
  = Some [[dquote; dquote] ++ str " TEXT"].
Proof.
  assert (Hn : Forall (fun c => is_word latin1_host c = false) (str "!!!"))
    by (repeat constructor).
  split; [exact Hn | exact (clean_column_no_word_chars latin1_host (str "!!!") Hn)].
Defined.

Lemma infer_pg_type_first_match_witness :
  lower latin1_host (str "BILLDATE") = lower latin1_host (str "billdate") /\
  infer_pg_type latin1_host (str "BILLDATE") = infer_pg_type latin1_host (str "billdate").
Proof.
  split; [reflexivity|].
  apply (proj1 (proj2 (infer_pg_type_first_match latin1_host))). reflexivity.
Defined.

(** ** Value coercion *)
Section CoercionProps.
Variable H : Host.

Lemma isna_truth_scalar (v : pyval) :
  is_list_cell v = false -> isna_truth H v = Ok (is_missing_cell v).
Proof.
  destruct v as [ | | b | z | f | s | d | items]; try reflexivity.
  - intros _. destruct f; reflexivity.
  - discriminate.
Qed.


(** The four examples of the specification, whatever the host tables
    are. *)
Theorem clean_value_examples :
  clean_value H PNone (str "numeric") = Ok PNone /\
  clean_value H (PStr (str "N/A")) (str "text") = Ok PNone /\
  clean_value H (PStr (str "12.50")) (str "numeric") = Ok (PFloat (Prim2SF 12.5)) /\
  clean_value H (PStr (str "abc")) (str "integer") = Ok PNone.
Proof. conjs; reflexivity. Qed.

(** ** C3 *)

(** C3, where the code departs from it: on a list of two or more elements,
    none of them a list, [clean_value] raises [ValueError], whatever the
    expected type, instead of returning NULL or the text of the value. *)
Theorem clean_value_list_raises (x y : json) (rest : list json) (t : pystr) :
  existsb is_json_list (x :: y :: rest) = false ->
  clean_value H (PList (x :: y :: rest)) t = Raise ValueError.
Proof.
  intros Hl. unfold clean_value, isna_truth. rewrite Hl. reflexivity.
Qed.
End CoercionProps.

(** ** Decoder *)


(** When the strict parse fails and the parse of the repaired text
    fails too, the decoder prints the error and the first 500 characters of
    the repaired text, and raises the error again. *)
Theorem decode_gives_up (text : pystr) (e : exn) (log : list event) :
  json_loads text = Raise JSONDecodeError ->
  json_loads (repair text) = Raise e ->
  decode text log
  = (log ++ [Print (MsgStillFailed e); Print (MsgPreview (firstn 500 (repair text)))],
     Raise e).
Proof.
  intros H1 H2. unfold decode, decode_with. rewrite H1, H2.
  unfold then_, print, emit, throw. now rewrite <- app_assoc.
Qed.

(** C5: when the strict parse of the text succeeds the decoder returns its
    value, prints nothing and does not depend on the repair pass; and on the
    text made of a quote, [C:\Users] and a quote the strict parse fails, the
    repair pass doubles the backslash, and the second parse gives the string
    [C:\Users]. *)
Theorem decode_round_trip :
  (forall (text : pystr) (data : json),
      json_loads text = Ok data ->
      forall (repair_pass : pystr -> pystr) (log : list event),
        decode_with repair_pass text log = (log, Ok data)) /\
  let text := json_text "'C:\Users'" in
  json_loads text = Raise JSONDecodeError /\
  repair text = json_text "'C:\\Users'" /\
  decode text [] = ([], Ok (JStr (str "C:\Users"))).
Proof.
  split.
  - intros text data Hp repair_pass log. unfold decode_with. now rewrite Hp.
  - cbv zeta. conjs; reflexivity.
Qed.

(** C6, where the code departs from it: in the text
    [{"p":"C:\\dir\q"}] the second backslash of the legal escape [\\] is
    followed by [d], so the repair pass doubles it too; the repaired text no
    longer parses and the decoder gives up, while the repair that keeps legal
    escapes as they are yields a text that parses.  Even a text whose every
    backslash belongs to a legal escape, ["a\\d"], is changed by the pass,
    into one that does not parse. *)
Theorem repair_breaks_escaped_backslash :
  let text := json_text "{'p':'C:\\dir\q'}" in
  let valid := json_text "'a\\d'" in
  json_loads text = Raise JSONDecodeError /\
  repair text = json_text "{'p':'C:\\\dir\\q'}" /\
  json_loads (repair text) = Raise JSONDecodeError /\
  snd (decode text []) = Raise JSONDecodeError /\
  repair_keeping_escapes false text = json_text "{'p':'C:\\dir\\q'}" /\
  json_loads (repair_keeping_escapes false text)
  = Ok (JObj [(str "p", JStr (str "C:\dir\q"))]) /\
  json_loads valid = Ok (JStr (str "a\d")) /\
  repair valid = json_text "'a\\\d'" /\
  json_loads (repair valid) = Raise JSONDecodeError.
Proof. cbv zeta. conjs; reflexivity. Qed.

(** ** Loader *)
Section LoaderProps.
Variable H : Host.
Variable db : database.

Lemma insert_row_events (cols : list pystr) (row cleaned : list pyval) (log : list event) :
  clean_row H cols row = Ok cleaned ->
  exists evs,
    insert_row H db cols row log = (log ++ evs, Ok tt) /\
    (forall rows evs', insert_trace cols rows evs' ->
                       insert_trace cols (cleaned :: rows) (evs ++ evs')) /\
    Forall (fun ev => ev <> Commit /\ ev <> CursorClose /\ ev <> ConnClose) evs.
Proof.
  intros Hc. unfold insert_row, then_, lift. rewrite Hc.
  unfold try_except, execute.
  destruct (db log (InsertRow table_name cols cleaned)) as [msg|].
  - exists [Execute (InsertRow table_name cols cleaned) (Some msg);
            Print (MsgInsertError cleaned (DatabaseError msg))].
    conjs.
    + unfold print, emit. now rewrite <- app_assoc.
    + intros rows evs' Ht. now apply trace_refused.
    + repeat (apply Forall_cons; [conjs; discriminate|]). apply Forall_nil.
  - exists [Execute (InsertRow table_name cols cleaned) None].
    conjs; [reflexivity | |].
    + intros rows evs' Ht. now apply trace_inserted.
    + repeat (apply Forall_cons; [conjs; discriminate|]). apply Forall_nil.
Qed.

Lemma for_each_insert_events (cols : list pystr) (rows : list (list pyval)) :
  forall cleaned log,
    map_result (clean_row H cols) rows = Ok cleaned ->
    exists evs,
      for_each rows (insert_row H db cols) log = (log ++ evs, Ok tt) /\
      insert_trace cols cleaned evs.
Proof.
  induction rows as [|row rows IH]; intros cleaned log Hm.
  - injection Hm as <-. exists []. rewrite app_nil_r. split; [reflexivity | constructor].
  - cbn [map_result] in Hm.
    destruct (clean_row H cols row) as [c|e] eqn:Hc; [|discriminate].
    cbn [bind] in Hm.
    destruct (map_result (clean_row H cols) rows) as [cs|e] eqn:Hcs; [|discriminate].
    injection Hm as <-.
    destruct (insert_row_events cols row c log Hc) as [evs [Hrow [Htr _]]].
    destruct (IH cs (log ++ evs) eq_refl) as [evs' [Hrest Htr']].
    exists (evs ++ evs'). split.
    + cbn [for_each]. unfold then_ at 1. rewrite Hrow, Hrest. now rewrite app_assoc.
    + now apply Htr.
Qed.

(** X3: whatever the database refuses, when every cell of the table
    coerces, the insertion loop runs over all the rows and does not raise: each row
    is executed once, in order; each refusal is printed with its row and
    its error; one commit follows the last row, then the cursor and the
    connection are closed. *)
Theorem insert_rows_resilient (df : frame) (cleaned : list (list pyval))
        (log : list event) :
  map_result (clean_row H (columns df)) (rows df) = Ok cleaned ->
  exists evs,
    insert_rows H db df log
    = (log ++ evs ++ [Commit; CursorClose; ConnClose; Print MsgInserted], Ok tt) /\
    insert_trace (columns df) cleaned evs.
Proof.
  intros Hm.
  destruct (for_each_insert_events (columns df) (rows df) cleaned log Hm)
    as [evs [Hloop Htr]].
  exists evs. split; [|exact Htr].
  unfold insert_rows, then_ at 1. rewrite Hloop.
  unfold then_, emit, print, emit. now rewrite <- !app_assoc.
Qed.


End LoaderProps.

(** ** C7 *)

(** C7, where the code departs from it: for the response
    [[{"Amount":"1"},{"Amount":[1,2]}]] and a database that takes every
    statement, the first row is executed, the coercion of the second row
    raises [ValueError] outside the [try] of the loop, and the run stops
    there: no commit follows the insertion, the connection is not closed and
    no row of the table is committed. *)
Theorem list_cell_aborts_run (H : Host) :
  let text := json_text "[{'Amount':'1'},{'Amount':[1,2]}]" in
  run H accepting text
  = ([Print (MsgCleanedColumns [str "Amount"]);
      Execute (CreateTable table_name [json_text "'Amount' NUMERIC(10,2)"]) None;
      Commit;
      Print (MsgTableCreated table_name);
      Execute (InsertRow table_name [str "Amount"] [PFloat (Prim2SF 1)]) None],
     Raise ValueError) /\
  committed_rows table_name [] [] (fst (run H accepting text)) = [].
Proof. cbv zeta. split; reflexivity. Qed.

(** ** C8, as amended *)

(** C8 (amended): for the response
    [[{"BillDate":"2024-01-05","Qty":"3","GSTAmount":"45.00"}]] and a
    database that takes every statement, the run ends normally; the table it
    creates has the columns BillDate of type DATE, Qty of type INTEGER and
    GSTAmount of type NUMERIC(10,2), named with the case of the response;
    and exactly one row is committed, holding the date 2024-01-05, the
    integer 3 and the float 45.0. *)
Theorem end_to_end (H : Host) :
  let text := json_text "[{'BillDate':'2024-01-05','Qty':'3','GSTAmount':'45.00'}]" in
  let cols := [str "BillDate"; str "Qty"; str "GSTAmount"] in
  let row := [PDate {| year := 2024; month := 1; day := 5 |}; PInt 3;
              PFloat (Prim2SF 45)] in
  run H accepting text
  = ([Print (MsgCleanedColumns cols);
      Execute (CreateTable table_name
                 [json_text "'BillDate' DATE"; json_text "'Qty' INTEGER";
                  json_text "'GSTAmount' NUMERIC(10,2)"]) None;
      Commit;
      Print (MsgTableCreated table_name);
      Execute (InsertRow table_name cols row) None;
      Commit; CursorClose; ConnClose;
      Print MsgInserted],
     Ok tt) /\
  created_fields table_name (fst (run H accepting text))
  = Some [json_text "'BillDate' DATE"; json_text "'Qty' INTEGER";
          json_text "'GSTAmount' NUMERIC(10,2)"] /\
  committed_rows table_name [] [] (fst (run H accepting text)) = [combine cols row].
Proof. cbv zeta. conjs; reflexivity. Qed.

(** C8, as stated, fails: the columns of the row that the run commits are
    named BillDate, Qty and GSTAmount, whatever the host tables are; none of
    them is named billdate, qty or gstamount. *)
Lemma end_to_end_column_names :
  (forall H,
      List.map (List.map fst)
        (committed_rows table_name [] []
           (fst (run H accepting
                   (json_text "[{'BillDate':'2024-01-05','Qty':'3','GSTAmount':'45.00'}]"))))
      = [[str "BillDate"; str "Qty"; str "GSTAmount"]]) /\
  List.map (fun c => mem c [str "BillDate"; str "Qty"; str "GSTAmount"])
           [str "billdate"; str "qty"; str "gstamount"]
  = [false; false; false].
Proof. split; reflexivity. Qed.

(** ** Further concrete instances *)

Lemma dedup_columns_distinct_witness :
  exists out,
    dedup_columns latin1_host [str "a"; str "a!"; str "a_1"] = Some out /\
    List.length out = 3 /\
    NoDup out /\
    forall i col, nth_error [str "a"; str "a!"; str "a_1"] i = Some col ->
      exists name, nth_error out i = Some name /\
                   dedup_choice (firstn i out) (clean_column latin1_host col) name.
Proof.
  exact (dedup_columns_distinct latin1_host [str "a"; str "a!"; str "a_1"]).
Defined.

Lemma decode_round_trip_witness :
  json_loads (json_text "[{'Qty':'3'}]") = Ok (JArr [JObj [(str "Qty", JStr (str "3"))]]) /\
  decode_with (fun _ => []) (json_text "[{'Qty':'3'}]") []
  = ([], Ok (JArr [JObj [(str "Qty", JStr (str "3"))]])).
Proof.
  split; [reflexivity|].
  apply (proj1 decode_round_trip). reflexivity.
Defined.


Lemma insert_rows_resilient_witness :
  let df := {| columns := [str "Qty"];
               rows := [[PStr (str "1")]; [PStr (str "abc")]; [PStr (str "2")]] |} in
  map_result (clean_row latin1_host (columns df)) (rows df)
  = Ok [[PInt 1]; [PNone]; [PInt 2]] /\
  exists evs,
    insert_rows latin1_host refuses_null df []
    = ([] ++ evs ++ [Commit; CursorClose; ConnClose; Print MsgInserted], Ok tt) /\
    insert_trace (columns df) [[PInt 1]; [PNone]; [PInt 2]] evs.
Proof.
  cbv zeta. split; [reflexivity|].
  exact (insert_rows_resilient latin1_host refuses_null
           {| columns := [str "Qty"];
              rows := [[PStr (str "1")]; [PStr (str "abc")]; [PStr (str "2")]] |}
           [[PInt 1]; [PNone]; [PInt 2]] [] eq_refl).
Defined.

Lemma clean_value_list_raises_witness :
  existsb is_json_list [JInt 1; JInt 2] = false /\
  clean_value latin1_host (PList [JInt 1; JInt 2]) (str "text") = Raise ValueError.
Proof.
  split; [reflexivity|].
  exact (clean_value_list_raises latin1_host (JInt 1) (JInt 2) [] (str "text") eq_refl).
Defined.


Lemma decode_gives_up_witness :
  json_loads (json_text "{'p':'C:\\dir\q'}") = Raise JSONDecodeError /\
  decode (json_text "{'p':'C:\\dir\q'}") []
  = ([] ++ [Print (MsgStillFailed JSONDecodeError);
            Print (MsgPreview (firstn 500 (repair (json_text "{'p':'C:\\dir\q'}"))))],
     Raise JSONDecodeError).
Proof.
  split; [reflexivity|].
  exact (decode_gives_up (json_text "{'p':'C:\\dir\q'}") JSONDecodeError []
           eq_refl eq_refl).
Defined.

(** * Further properties of the sanitizer *)
Section SanitizerStability.
Variable H : Host.

Lemma sub_nonword_id (s : pystr) :
  Forall (fun c => is_word H c = true) s -> sub_nonword H s = s.
Proof.
  unfold sub_nonword. induction 1 as [|c s Hc _ IH]; [reflexivity|].
  cbn [List.map]. now rewrite Hc, IH.
Qed.

Lemma sub_underscores_from_id (s : pystr) :
  contains [underscore; underscore] s = false ->
  forall b, (b = true -> hd_error s <> Some underscore) ->
            sub_underscores_from b s = s.
Proof.
  induction s as [|c s IH]; intros Hp b Hb; [reflexivity|].
  rewrite contains_pair_cons in Hp. apply orb_false_iff in Hp as [Hh Hp].
  cbn [sub_underscores_from].
  destruct (N.eqb c underscore) eqn:He.
  - apply N.eqb_eq in He. subst c. destruct b.
    + now elim (Hb eq_refl).
    + f_equal. apply IH; [exact Hp|]. intros _ Hs.
      destruct s as [|d s]; [discriminate|]. injection Hs as ->.
      cbn in Hh. discriminate.
  - f_equal. apply IH; [exact Hp | discriminate].
Qed.

Lemma lstrip_id (p : N -> bool) (s : pystr) :
  (forall c, hd_error s = Some c -> p c = false) -> lstrip p s = s.
Proof.
  destruct s as [|c s]; [reflexivity|]. intros Hh. cbn [lstrip].
  now rewrite (Hh c eq_refl).
Qed.

Lemma strip_id (p : N -> bool) (s : pystr) :
  (forall c, hd_error s = Some c -> p c = false) ->
  (forall c, last_error s = Some c -> p c = false) ->
  strip p s = s.
Proof.
  intros Hh Hl. unfold strip, rstrip. rewrite (lstrip_id p s Hh).
  rewrite (lstrip_id p (rev s) Hl). apply rev_involutive.
Qed.

(** A name made of word characters, with no underscore at either end and
    no two underscores in a row, goes through the three rewriting steps
    unchanged. *)
Lemma stripped_id (s : pystr) :
  Forall (fun c => is_word H c = true) s ->
  contains [underscore; underscore] s = false ->
  hd_error s <> Some underscore ->
  last_error s <> Some underscore ->
  stripped H s = s.
Proof.
  intros Hw Hp Hh Hl. unfold stripped, sub_underscores.
  rewrite (sub_nonword_id s Hw), (sub_underscores_from_id s Hp false) by discriminate.
  apply strip_id; intros c Hc; apply N.eqb_neq; intros <-; auto.
Qed.

Lemma stripped_stripped (col : pystr) : stripped H (stripped H col) = stripped H col.
Proof.
  apply stripped_id.
  - apply stripped_word. apply sub_nonword_word.
  - apply stripped_single.
  - apply stripped_head.
  - apply stripped_last.
Qed.

Lemma rstrip_snoc (s : pystr) :
  last_error s <> Some underscore ->
  rstrip (N.eqb underscore) (s ++ [underscore]) = s.
Proof.
  intros Hl. unfold rstrip. rewrite rev_app_distr. cbn [rev app lstrip].
  rewrite N.eqb_refl. rewrite lstrip_id; [apply rev_involutive|].
  intros c Hc. apply N.eqb_neq. intros <-. now apply Hl.
Qed.

Lemma stripped_marked (col : pystr) :
  stripped H col <> [] ->
  stripped H (stripped H col ++ [underscore]) = stripped H col.
Proof.
  intros Hne.
  pose proof (stripped_head H col) as Hh.
  pose proof (stripped_last H col) as Hl.
  pose proof (stripped_single H col) as Hp.
  pose proof (stripped_word H col _ (sub_nonword_word H col)) as Hw.
  unfold stripped at 1, sub_underscores.
  rewrite sub_nonword_id.
  2:{ apply Forall_app. split; [exact Hw | repeat constructor]. }
  rewrite sub_underscores_from_id; [| now apply no_pair_snoc | discriminate].
  unfold strip. rewrite lstrip_id.
  - now apply rstrip_snoc.
  - intros c Hc. apply N.eqb_neq. intros <-.
    destruct (stripped H col); [now elim Hne | now apply Hh].
Qed.

(** X8: [clean_column] is idempotent: a name that it produced is returned
    unchanged when cleaned again, the underscore appended to a reserved
    keyword included. *)
Theorem clean_column_idempotent (col : pystr) :
  clean_column H (clean_column H col) = clean_column H col.
Proof.
  rewrite (clean_column_unfold H col).
  destruct (mem (lower H (stripped H col)) postgres_reserved_keywords) eqn:Hm.
  - assert (Hne : stripped H col <> []).
    { intros He. rewrite He, lower_nil in Hm. discriminate. }
    rewrite clean_column_unfold, (stripped_marked col Hne), Hm. reflexivity.
  - rewrite clean_column_unfold, stripped_stripped, Hm. reflexivity.
Qed.

Lemma lower_from_snoc (s before : pystr) (c : N) :
  is_ascii c = true ->
  exists pre, lower_from H before (s ++ [c]) = pre ++ [ascii_lower c].
Proof.
  intros Hc. revert before. induction s as [|x s IH]; intros before.
  - exists []. cbn [app lower_from]. now rewrite Hc.
  - destruct (IH (before ++ [x])) as [pre Hp]. cbn [app lower_from]. rewrite Hp.
    eexists. now rewrite app_assoc.
Qed.

(** X9: the name that [clean_column] returns is never, lower-cased, one of
    the reserved keywords. *)
Theorem clean_column_not_reserved (col : pystr) :
  mem (lower H (clean_column H col)) postgres_reserved_keywords = false.
Proof.
  rewrite clean_column_unfold.
  destruct (mem (lower H (stripped H col)) postgres_reserved_keywords) eqn:Hm;
    [|exact Hm].
  destruct (lower_from_snoc (stripped H col) [] underscore eq_refl) as [pre Hp].
  unfold lower. rewrite Hp. change (ascii_lower underscore) with underscore.
  apply mem_not_In. intros Hin.
  assert (Hl : last_error (pre ++ [underscore]) = Some underscore)
    by apply last_error_app.
  revert Hl. generalize (pre ++ [underscore]) Hin. clear.
  intros x Hin. unfold postgres_reserved_keywords in Hin. cbn [List.map In] in Hin.
  repeat (destruct Hin as [<- | Hin]; [discriminate|]). destruct Hin.
Qed.
End SanitizerStability.

(** * Further properties of the de-duplication and of the schema *)
Section DedupSchema.
Variable H : Host.

Lemma clean_column_word (col : pystr) :
  Forall (fun c => is_word H c = true) (clean_column H col).
Proof.
  rewrite clean_column_unfold.
  pose proof (stripped_word H col _ (sub_nonword_word H col)) as Hw.
  destruct (mem _ _); [|exact Hw].
  apply Forall_app. split; [exact Hw | repeat constructor].
Qed.

Lemma string_of_uint_digits (d : Decimal.uint) :
  Forall (fun c => is_digit c = true) (str (NilEmpty.string_of_uint d)).
Proof.
  induction d; cbn [NilEmpty.string_of_uint]; try constructor; try reflexivity;
    exact IHd.
Qed.

Lemma is_digit_word (c : N) : is_digit c = true -> is_word H c = true.
Proof.
  unfold is_digit, in_range, is_word, is_ascii, is_ascii_word, is_digit, in_range.
  intros Hd. apply andb_true_iff in Hd as [Hlo Hhi].
  apply N.leb_le in Hlo, Hhi.
  assert (Ha : N.ltb c 128 = true) by (apply N.ltb_lt; lia).
  rewrite Ha. apply orb_true_iff. left. apply orb_true_iff. right.
  apply andb_true_iff. split; apply N.leb_le; lia.
Qed.

Lemma suffixed_word (base : pystr) (k : nat) :
  Forall (fun c => is_word H c = true) base ->
  Forall (fun c => is_word H c = true) (suffixed base k).
Proof.
  intros Hb. unfold suffixed, str_of_nat. apply Forall_app. split; [exact Hb|].
  apply Forall_app. split; [repeat constructor|].
  eapply Forall_impl; [|apply string_of_uint_digits]. apply is_digit_word.
Qed.

(** What one iteration appends: the cleaned name, or the cleaned name with
    a numeric suffix. *)
Lemma dedup_step_shape (acc seen acc' seen' : list pystr) (col : pystr) :
  dedup_step H (acc, seen) col = Some (acc', seen') ->
  exists name,
    acc' = acc ++ [name] /\ seen' = name :: seen /\
    (name = clean_column H col \/ exists k, name = suffixed (clean_column H col) k).
Proof.
  cbn [dedup_step]. destruct (mem (clean_column H col) seen).
  - destruct (next_suffix _ _ _ _) as [k|]; [|discriminate].
    intros [= <- <-]. eexists. conjs; eauto.
  - intros [= <- <-]. eexists. conjs; eauto.
Qed.

Lemma dedup_loop_forall (P : pystr -> Prop) :
  (forall col, P (clean_column H col)) ->
  (forall col k, P (suffixed (clean_column H col) k)) ->
  forall cols acc seen acc' seen',
    Forall P acc ->
    dedup_loop H (acc, seen) cols = Some (acc', seen') ->
    Forall P acc'.
Proof.
  intros Hc Hs. induction cols as [|col cols IH]; intros acc seen acc' seen' Ha.
  - now intros [= <- <-].
  - cbn [dedup_loop]. destruct (dedup_step H (acc, seen) col) as [[a s]|] eqn:Hst;
      [|discriminate].
    apply dedup_step_shape in Hst as [name [-> [-> Hn]]].
    apply IH. apply Forall_app. split; [exact Ha|]. constructor; [|constructor].
    destruct Hn as [-> | [k ->]]; auto.
Qed.

Lemma word_no_dquote (s : pystr) :
  Forall (fun c => is_word H c = true) s -> ~ In dquote s.
Proof.
  intros Hw Hin. rewrite Forall_forall in Hw. specialize (Hw _ Hin). discriminate.
Qed.

Lemma span_until_dquote (name rest : pystr) :
  ~ In dquote name ->
  span (fun x => negb (N.eqb x dquote)) (name ++ dquote :: rest)
  = (name, dquote :: rest).
Proof.
  induction name as [|c name IH]; intros Hn.
  - cbn [app span]. now rewrite N.eqb_refl.
  - cbn [app span]. destruct (N.eqb c dquote) eqn:He.
    + apply N.eqb_eq in He. subst c. elim Hn. now left.
    + cbn [negb]. rewrite IH; [reflexivity|]. intros Hin. apply Hn. now right.
Qed.

(** X10: the names that the de-duplication loop returns consist of word
    characters only, so none holds a double quote; hence each column
    definition of the CREATE TABLE statement - the name between double
    quotes, a space, the type - reads back as exactly that name followed by
    the type inferred for it. *)
Theorem schema_identifiers_safe (cols out : list pystr) :
  dedup_columns H cols = Some out ->
  Forall (fun name => Forall (fun c => is_word H c = true) name /\ ~ In dquote name) out /\
  Forall2 (fun name field =>
             quoted_identifier field = Some name /\
             field = [dquote] ++ name ++ [dquote] ++ str " " ++ infer_pg_type H name)
          out (columns_with_types H out).
Proof.
  unfold dedup_columns. destruct (dedup_loop H ([], []) cols) as [[acc seen]|] eqn:Hl;
    [|discriminate].
  intros [= <-]. cbn [fst].
  assert (Hw : Forall (fun name => Forall (fun c => is_word H c = true) name) acc).
  { apply (dedup_loop_forall _ clean_column_word
             (fun col k => suffixed_word _ k (clean_column_word col))
             cols [] [] acc seen (Forall_nil _) Hl). }
  split.
  - eapply Forall_impl; [|exact Hw]. intros name Hn. split; [exact Hn|].
    now apply word_no_dquote.
  - clear Hl. induction Hw as [|name acc Hn _ IH]; [constructor|].
    cbn [columns_with_types List.map]. constructor; [|exact IH].
    split; [|reflexivity].
    cbn [quoted_identifier app]. rewrite N.eqb_refl.
    rewrite (span_until_dquote name _ (word_no_dquote name Hn)).
    now rewrite N.eqb_refl.
Qed.

Lemma dedup_loop_fresh (cols : list pystr) :
  forall acc seen,
    (forall x, In x seen <-> In x acc) ->
    NoDup (List.map (clean_column H) cols) ->
    (forall col, In col cols -> ~ In (clean_column H col) acc) ->
    exists seen',
      dedup_loop H (acc, seen) cols
      = Some (acc ++ List.map (clean_column H) cols, seen').
Proof.
  induction cols as [|col cols IH]; intros acc seen Hs Hnd Hfresh.
  - exists seen. cbn. now rewrite app_nil_r.
  - cbn [List.map] in Hnd. apply NoDup_cons_iff in Hnd as [Hnew Hnd].
    cbn [dedup_loop dedup_step].
    assert (Hm : mem (clean_column H col) seen = false).
    { apply mem_not_In. rewrite Hs. apply Hfresh. now left. }
    rewrite Hm.
    destruct (IH (acc ++ [clean_column H col]) (clean_column H col :: seen)) as [seen' Hl].
    + intros x. rewrite in_app_iff. cbn [In]. rewrite Hs. tauto.
    + exact Hnd.
    + intros c Hc Hin. apply in_app_iff in Hin as [Hin | [He | []]].
      * apply (Hfresh c); [now right | exact Hin].
      * apply Hnew. rewrite He. now apply in_map.
    + exists seen'. rewrite Hl, <- app_assoc. reflexivity.
Qed.

(** X11: when the cleaned names of the columns are pairwise distinct, the
    de-duplication loop appends no suffix: it returns the cleaned names. *)
Theorem dedup_columns_no_rename (cols : list pystr) :
  NoDup (List.map (clean_column H) cols) ->
  dedup_columns H cols = Some (List.map (clean_column H) cols).
Proof.
  intros Hnd.
  destruct (dedup_loop_fresh cols [] []) as [seen' Hl]; [tauto | exact Hnd | auto |].
  unfold dedup_columns. now rewrite Hl.
Qed.
End DedupSchema.

(** * Further properties of the type inference *)
Section InferenceGuard.
Variable H : Host.

(** X12: a column is typed DATE exactly when its lower-cased name contains
    [date]: the test that sets [billmonth] apart never decides, since that
    name does not contain [date]. *)
Theorem infer_pg_type_date (name : pystr) :
  infer_pg_type H name = str "DATE" <->
  contains (str "date") (lower H name) = true.
Proof.
  unfold infer_pg_type. split.
  - destruct (contains (str "date") (lower H name)); [reflexivity|].
    cbn [andb].
    repeat match goal with
           | |- context [if ?b then _ else _] => destruct b
           end; discriminate.
  - intros Hc. rewrite Hc. cbn [andb].
    destruct (pystr_eqb (lower H name) (str "billmonth")) eqn:He; [|reflexivity].
    apply pystr_eqb_eq in He. rewrite He in Hc. discriminate.
Qed.
End InferenceGuard.

(** * Further properties of the value coercion *)
Section CoercionShape.
Variable H : Host.


(** X13: for a string and an expected type that is none of numeric, integer
    and date, [clean_value] returns NULL when the string, stripped and upper
    cased, is [N/A], [NA] or empty, and otherwise the stripped string, which
    is then not empty and has no whitespace at either end. *)
Theorem clean_value_text (s t : pystr) :
  t <> str "numeric" -> t <> str "integer" -> t <> str "date" ->
  let r := strip (is_space H) s in
  (mem (upper H r) [str "N/A"; []; str "NA"] = true /\
   clean_value H (PStr s) t = Ok PNone) \/
  (mem (upper H r) [str "N/A"; []; str "NA"] = false /\
   clean_value H (PStr s) t = Ok (PStr r) /\
   r <> [] /\
   (forall c, hd_error r = Some c -> is_space H c = false) /\
   (forall c, last_error r = Some c -> is_space H c = false)).
Proof.
  intros Hn Hi Hd r. unfold clean_value. cbn [isna_truth bind orb is_sentinel py_str].
  fold r. apply pystr_eqb_neq in Hn, Hi, Hd. rewrite Hn, Hi, Hd.
  destruct (mem (upper H r) [str "N/A"; []; str "NA"]) eqn:Hm; [now left|].
  right. conjs; try reflexivity.
  - intros He. rewrite He in Hm. discriminate.
  - apply strip_head.
  - apply strip_last.
Qed.
End CoercionShape.

(** X14: [int] of a finite float truncates toward zero: the result has the
    sign of the float, and its magnitude is the integer part of the
    magnitude [m * 2^e] of the float. *)
Theorem int_of_float_truncates (s : bool) (m : positive) (e z : Z) :
  int_of_float (S754_finite s m e) = Ok z ->
  (if s then z <= 0 else 0 <= z)%Z /\
  (0 <= e -> Z.abs z = Z.pos m * 2 ^ e)%Z /\
  (e < 0 -> Z.abs z * 2 ^ (- e) <= Z.pos m < (Z.abs z + 1) * 2 ^ (- e))%Z.
Proof.
  unfold int_of_float.
  set (p := (Z.pos m * 2 ^ e)%Z). set (q := (Z.pos m / 2 ^ (- e))%Z).
  intros Hz.
  assert (Hz' : z = let a := if Z.leb 0 e then p else q in if s then (- a)%Z else a)
    by (cbv zeta; congruence).
  clear Hz. cbv zeta in Hz'. subst z.
  destruct (Z.leb 0 e) eqn:He.
  - apply Z.leb_le in He.
    assert (Hp : (0 < p)%Z).
    { apply Z.mul_pos_pos; [lia | now apply Z.pow_pos_nonneg]. }
    fold p. destruct s; conjs; lia.
  - apply Z.leb_gt in He.
    assert (Hk : (0 < 2 ^ (- e))%Z) by (apply Z.pow_pos_nonneg; lia).
    pose proof (Z.div_pos (Z.pos m) (2 ^ (- e)) ltac:(lia) Hk) as Hq.
    pose proof (Z.mul_div_le (Z.pos m) (2 ^ (- e)) Hk) as Hle.
    pose proof (Z.mul_succ_div_gt (Z.pos m) (2 ^ (- e)) Hk) as Hgt.
    fold q in Hq, Hle, Hgt.
    destruct s; conjs; try lia; intros _;
      rewrite ?Z.abs_opp, Z.abs_eq by lia; lia.
Qed.

(** * Further properties of the loader *)
Section LoaderRows.
Variable H : Host.

Lemma lookup_column_types (cols : list pystr) (col : pystr) :
  In col cols -> lookup col (column_types H cols) = Ok (infer_pg_type H col).
Proof.
  induction cols as [|c cols IH]; intros Hin; [destruct Hin|].
  cbn [column_types List.map lookup]. destruct (pystr_eqb col c) eqn:He.
  - apply pystr_eqb_eq in He. now subst.
  - apply IH. destruct Hin as [-> | Hin]; [|exact Hin].
    rewrite pystr_eqb_refl in He. discriminate.
Qed.

Lemma map_result_ext {A B : Type} (f g : A -> result B) (xs : list A) :
  (forall x, In x xs -> f x = g x) -> map_result f xs = map_result g xs.
Proof.
  induction xs as [|x xs IH]; intros Hfg; [reflexivity|].
  cbn [map_result]. rewrite (Hfg x (or_introl eq_refl)), IH; [reflexivity|].
  intros y Hy. apply Hfg. now right.
Qed.

Lemma map_result_ok {A B : Type} (f : A -> result B) (g : A -> B) (xs : list A) :
  (forall x, In x xs -> f x = Ok (g x)) -> map_result f xs = Ok (List.map g xs).
Proof.
  induction xs as [|x xs IH]; intros Hfg; [reflexivity|].
  cbn [map_result List.map]. rewrite (Hfg x (or_introl eq_refl)), IH; [reflexivity|].
  intros y Hy. apply Hfg. now right.
Qed.

Lemma map_result_combine_index {B : Type} (all : list pystr)
      (f : pystr -> pyval -> result B) (e : exn) :
  forall (row : list pyval) (pre cols : list pystr),
    all = pre ++ cols ->
    List.length row <= List.length cols ->
    map_result (fun iv => match nth_error all (fst iv) with
                          | Some col => f col (snd iv)
                          | None => Raise e
                          end)
               (combine (seq (List.length pre) (List.length row)) row)
    = map_result (fun cv => f (fst cv) (snd cv)) (combine cols row).
Proof.
  induction row as [|v row IH]; intros pre cols Hall Hlen;
    [destruct cols; reflexivity|].
  destruct cols as [|c cols]; [cbn in Hlen; lia|].
  cbn [List.length seq combine map_result fst snd].
  assert (Hn : nth_error all (List.length pre) = Some c).
  { rewrite Hall, nth_error_app2, Nat.sub_diag by lia. reflexivity. }
  rewrite Hn. f_equal.
  specialize (IH (pre ++ [c]) cols). rewrite length_app in IH. cbn [List.length] in IH.
  rewrite Nat.add_1_r in IH. rewrite IH; [reflexivity | | cbn in Hlen; lia].
  now rewrite <- app_assoc.
Qed.

(** X15: on a row that has a cell per column the comprehension of the
    loop raises neither [IndexError] nor [KeyError]: the look-up of the
    column's type always succeeds, and the row it builds is the coercion of
    each cell to the type inferred for the column of that cell. *)
Theorem clean_row_by_column (cols : list pystr) (row : list pyval) :
  List.length row = List.length cols ->
  clean_row H cols row
  = map_result (fun cv => clean_value H (snd cv)
                            (type_key H (infer_pg_type H (fst cv))))
               (combine cols row).
Proof.
  intros Hlen. unfold clean_row, enumerate.
  pose proof (map_result_combine_index cols
                (fun col v => t <- lookup col (column_types H cols) ;;
                              clean_value H v (type_key H t))
                IndexError row [] cols eq_refl) as Hx.
  cbn [List.length] in Hx. rewrite Hx by lia.
  apply map_result_ext. intros [col v] Hin. cbn [fst snd].
  apply in_combine_l in Hin. now rewrite (lookup_column_types cols col Hin).
Qed.

Lemma clean_value_coerce (v : pyval) (t : pystr) :
  is_list_cell v = false -> clean_value H v t = Ok (coerce H v t).
Proof.
  intros Hv. unfold clean_value, coerce. rewrite (isna_truth_scalar H v Hv).
  cbn [bind].
  destruct (is_missing_cell v || is_sentinel H v); [reflexivity|].
  destruct (pystr_eqb t (str "numeric")).
  { destruct (py_float H v); reflexivity. }
  destruct (pystr_eqb t (str "integer")).
  { destruct (py_float H v) as [f|e]; [|reflexivity]. cbn [bind or_none].
    destruct (int_of_float f); reflexivity. }
  destruct (pystr_eqb t (str "date")); reflexivity.
Qed.

Lemma clean_row_scalar (cols : list pystr) (row : list pyval) :
  List.length row = List.length cols ->
  Forall (fun v => is_list_cell v = false) row ->
  clean_row H cols row = Ok (coerced_row H cols row).
Proof.
  intros Hlen Hs. unfold clean_row, enumerate, coerced_row.
  pose proof (map_result_combine_index cols
                (fun col v => t <- lookup col (column_types H cols) ;;
                              clean_value H v (type_key H t))
                IndexError row [] cols eq_refl) as Hx.
  cbn [List.length] in Hx. rewrite Hx by lia.
  apply map_result_ok. intros [col v] Hin. cbn [fst snd].
  rewrite (lookup_column_types cols col (in_combine_l _ _ _ _ Hin)). cbn [bind].
  apply clean_value_coerce. apply in_combine_r in Hin.
  rewrite Forall_forall in Hs. now apply Hs.
Qed.

Lemma clean_rows_scalar (df : frame) :
  rectangular df -> scalar_cells df ->
  map_result (clean_row H (columns df)) (rows df)
  = Ok (List.map (coerced_row H (columns df)) (rows df)).
Proof.
  unfold rectangular, scalar_cells. intros Hr Hs. apply map_result_ok.
  intros row Hin. rewrite Forall_forall in Hr, Hs.
  apply clean_row_scalar; auto.
Qed.

Lemma for_each_insert_accepting (cols : list pystr) (rows : list (list pyval)) :
  forall cleaned log,
    map_result (clean_row H cols) rows = Ok cleaned ->
    for_each rows (insert_row H accepting cols) log
    = (log ++ List.map (fun r => Execute (InsertRow table_name cols r) None) cleaned,
       Ok tt).
Proof.
  induction rows as [|row rows IH]; intros cleaned log Hm.
  - injection Hm as <-. cbn. now rewrite app_nil_r.
  - cbn [map_result] in Hm.
    destruct (clean_row H cols row) as [c|e] eqn:Hc; [|discriminate].
    cbn [bind] in Hm.
    destruct (map_result (clean_row H cols) rows) as [cs|e] eqn:Hcs; [|discriminate].
    injection Hm as <-. cbn [for_each List.map]. unfold then_ at 1.
    unfold insert_row at 1, then_, lift, try_except, execute, accepting.
    rewrite Hc. rewrite (IH cs _ eq_refl), <- app_assoc. reflexivity.
Qed.

Lemma committed_rows_inserts (cols : list pystr) (cleaned : list (list pyval))
      (pending done : list (list (pystr * pyval))) (rest : list event) :
  committed_rows table_name pending done
    (List.map (fun r => Execute (InsertRow table_name cols r) None) cleaned ++ rest)
  = committed_rows table_name (pending ++ List.map (combine cols) cleaned) done rest.
Proof.
  revert pending. induction cleaned as [|r cleaned IH]; intros pending.
  - cbn. now rewrite app_nil_r.
  - cbn [List.map app committed_rows]. rewrite pystr_eqb_refl, IH, <- app_assoc.
    reflexivity.
Qed.

(** X16: a table that has a cell per column in every row and no list-valued
    cell is inserted completely, whatever the database refuses: the loop
    does not raise, each row is executed once, in order, as the coercion of
    its cells, each refusal is printed, and the commit and the two closes
    follow. *)
Theorem insert_rows_scalar_table (db : database) (df : frame) (log : list event) :
  rectangular df -> scalar_cells df ->
  exists evs,
    insert_rows H db df log
    = (log ++ evs ++ [Commit; CursorClose; ConnClose; Print MsgInserted], Ok tt) /\
    insert_trace (columns df) (List.map (coerced_row H (columns df)) (rows df)) evs.
Proof.
  intros Hr Hs.
  destruct (for_each_insert_events H db (columns df) (rows df) _ log
              (clean_rows_scalar df Hr Hs)) as [evs [Hloop Htr]].
  exists evs. split; [|exact Htr].
  unfold insert_rows, then_ at 1. rewrite Hloop.
  unfold then_, emit, print, emit. now rewrite <- !app_assoc.
Qed.

(** X17: with a database that takes every statement, the rows committed
    after the loop are the coerced rows of the table, one per row and in
    order, each under the column names of the table. *)
Theorem insert_rows_commits_all (df : frame) (cleaned : list (list pyval)) :
  map_result (clean_row H (columns df)) (rows df) = Ok cleaned ->
  snd (insert_rows H accepting df []) = Ok tt /\
  committed_rows table_name [] [] (fst (insert_rows H accepting df []))
  = List.map (combine (columns df)) cleaned.
Proof.
  intros Hm.
  assert (Hrun : insert_rows H accepting df []
                 = (List.map (fun r => Execute (InsertRow table_name (columns df) r) None)
                             cleaned
                    ++ [Commit; CursorClose; ConnClose; Print MsgInserted], Ok tt)).
  { unfold insert_rows, then_ at 1.
    rewrite (for_each_insert_accepting (columns df) (rows df) cleaned [] Hm).
    unfold then_, emit, print, emit. cbn [app]. now rewrite <- !app_assoc. }
  rewrite Hrun. cbn [fst snd]. split; [reflexivity|].
  rewrite committed_rows_inserts. reflexivity.
Qed.
End LoaderRows.

(** * Further properties of the decoder and of the run *)

Lemma json_loads_raises (text : pystr) (e : exn) :
  json_loads text = Raise e -> e = JSONDecodeError.
Proof.
  unfold json_loads. destruct (lex 0 text) as [ts|]; [|congruence].
  destruct (parse_tokens _ ts); congruence.
Qed.

Lemma decode_log (text : pystr) (log : list event) :
  (exists data, decode text log = (log, Ok data)) \/
  (exists m1 m2 e, decode text log = (log ++ [Print m1; Print m2], Raise e)).
Proof.
  unfold decode, decode_with.
  destruct (json_loads text) as [data|e] eqn:H1; [left; now exists data|].
  apply json_loads_raises in H1 as Hx. subst e.
  destruct (json_loads (repair text)) as [data|e] eqn:H2; [left; now exists data|].
  right. do 3 eexists. unfold then_, print, emit, throw. now rewrite <- app_assoc.
Qed.


Section RunOrder.
Variable H : Host.
Variable db : database.

Lemma insert_row_extends (cols : list pystr) (row : list pyval) (log : list event) :
  exists evs, fst (insert_row H db cols row log) = log ++ evs.
Proof.
  unfold insert_row, then_, lift. destruct (clean_row H cols row) as [c|e].
  - unfold try_except, execute. destruct (db log _) as [msg|].
    + unfold print, emit. cbn [fst]. rewrite <- app_assoc. eauto.
    + cbn [fst]. eauto.
  - exists []. now rewrite app_nil_r.
Qed.

Lemma for_each_insert_extends (cols : list pystr) (rows : list (list pyval)) :
  forall log, exists evs,
    fst (for_each rows (insert_row H db cols) log) = log ++ evs.
Proof.
  induction rows as [|row rows IH]; intros log.
  - exists []. cbn. now rewrite app_nil_r.
  - cbn [for_each]. unfold then_ at 1.
    destruct (insert_row_extends cols row log) as [evs Hrow].
    destruct (insert_row H db cols row log) as [log' [[]|e]]; cbn [fst] in Hrow; subst log'.
    + destruct (IH (log ++ evs)) as [evs' Hrest]. rewrite Hrest, <- app_assoc. eauto.
    + cbn [fst]. eauto.
Qed.

Lemma insert_rows_extends (df : frame) (log : list event) :
  exists evs, fst (insert_rows H db df log) = log ++ evs.
Proof.
  unfold insert_rows, then_ at 1.
  destruct (for_each_insert_extends (columns df) (rows df) log) as [evs Hloop].
  destruct (for_each _ _ log) as [log' [[]|e]]; cbn [fst] in Hloop; subst log'.
  - unfold then_, emit, print, emit. cbn [fst]. rewrite <- !app_assoc. eauto.
  - cbn [fst]. eauto.
Qed.

(** X18: whatever the response and whatever the database does, no INSERT
    is executed unless the run started with the print of the cleaned
    columns, a CREATE TABLE that the database took, its commit and the print
    of the creation: a failure of the decoder, of the normalisation or of
    the CREATE TABLE ends the run before any row is sent. *)
Theorem no_insert_before_create (text : pystr) :
  existsb is_insert (fst (run H db text)) = false \/
  exists cols rest,
    fst (run H db text)
    = [Print (MsgCleanedColumns cols);
       Execute (CreateTable table_name (columns_with_types H cols)) None;
       Commit;
       Print (MsgTableCreated table_name)] ++ rest.
Proof.
  destruct (run H db text) as [log r] eqn:Hrun. cbn [fst].
  unfold run, pipeline, then_ in Hrun.
  destruct (decode_log text []) as [[data Hd] | [m1 [m2 [e Hd]]]]; rewrite Hd in Hrun;
    [|injection Hrun as <- _; now left].
  unfold lift in Hrun;
    (destruct (json_normalize H data) as [df|e]; [|injection Hrun as <- _; now left]);
    unfold load, then_, lift in Hrun;
    (destruct (rename_columns H df) as [df'|e]; [|injection Hrun as <- _; now left]);
    unfold print, emit, execute in Hrun; cbn [app] in Hrun;
    (destruct (db _ _) as [msg|]; [injection Hrun as <- _; now left|]);
    cbn [app] in Hrun; right; exists (columns df');
    (destruct (clean_bill_date H df') as [df''|e];
     [|injection Hrun as <- _; exists []; reflexivity]);
    destruct (insert_rows_extends df''
                [Print (MsgCleanedColumns (columns df'));
                 Execute (CreateTable table_name (columns_with_types H (columns df'))) None;
                 Commit; Print (MsgTableCreated table_name)]) as [evs He];
    rewrite Hrun in He; cbn [fst] in He; now exists evs.
Qed.
End RunOrder.

(** * Further properties of the repair pass *)

Lemma repair_keeping_escapes_agree (s : pystr) :
  contains [backslash; backslash] s = false ->
  repair s = repair_keeping_escapes false s /\
  (hd_error s <> Some backslash -> repair s = repair_keeping_escapes true s).
Proof.
  induction s as [|c s IH]; intros Hp; [split; reflexivity|].
  rewrite contains_pair_cons in Hp. apply orb_false_iff in Hp as [Hh Hp].
  destruct (IH Hp) as [IH1 IH2]. split.
  - cbn [repair repair_keeping_escapes].
    destruct (N.eqb c backslash) eqn:Hc; cbn [andb]; [|now rewrite IH1].
    destruct (not_followed_by_escape s) eqn:Hn; [now rewrite IH1|].
    f_equal. apply IH2. apply N.eqb_eq in Hc. subst c.
    rewrite N.eqb_refl in Hh. cbn [andb] in Hh.
    destruct s as [|d s]; [discriminate|]. cbn [hd_error]. intros [= ->].
    rewrite N.eqb_refl in Hh. discriminate.
  - intros Hne. cbn [repair repair_keeping_escapes].
    destruct (N.eqb c backslash) eqn:Hc.
    + apply N.eqb_eq in Hc. subst c. now elim Hne.
    + cbn [andb]. now rewrite IH1.
Qed.

(** X19: on a text in which no backslash directly follows another, the
    repair pass does what its comment says: it doubles the backslashes that
    start no legal escape and leaves every legal escape as it is. *)
Theorem repair_keeps_escapes (s : pystr) :
  contains [backslash; backslash] s = false ->
  repair s = repair_keeping_escapes false s.
Proof.
  intros Hp. now apply repair_keeping_escapes_agree.
Qed.

(** * The date column: pre-pass and coercion *)
Section BillDate.
Variable H : Host.

Lemma is_digit_ascii (c : N) : is_digit c = true -> is_ascii c = true.
Proof.
  unfold is_digit, in_range, is_ascii. intros Hd.
  apply andb_true_iff in Hd as [_ Hhi]. apply N.leb_le in Hhi.
  apply N.ltb_lt. lia.
Qed.

Lemma is_digit_not_space (c : N) : is_digit c = true -> is_space H c = false.
Proof.
  intros Hd. unfold is_space. rewrite (is_digit_ascii c Hd).
  unfold is_digit, in_range in Hd. apply andb_true_iff in Hd as [Hlo Hhi].
  apply N.leb_le in Hlo, Hhi.
  unfold is_ascii_space, in_range.
  repeat (apply orb_false_iff; split); try apply andb_false_iff;
    try (right; apply N.leb_gt; lia); try (apply N.eqb_neq; lia).
Qed.

Lemma is_digit_upper (c : N) :
  is_digit c = true -> (if is_ascii c then [ascii_upper c] else uni_upper H c) = [c].
Proof.
  intros Hd. rewrite (is_digit_ascii c Hd). unfold ascii_upper.
  unfold is_digit, in_range in Hd. apply andb_true_iff in Hd as [Hlo Hhi].
  apply N.leb_le in Hlo, Hhi.
  assert (Hl : is_lower_az c = false).
  { unfold is_lower_az, in_range. apply andb_false_iff. left. apply N.leb_gt. lia. }
  now rewrite Hl.
Qed.

(** An ISO calendar date is not a sentinel, and reads as a date that is
    valid and in range. *)
Lemma iso_date_facts (s : pystr) (d : date) :
  iso_date s = Some d ->
  is_sentinel H (PStr s) = false /\ valid_date d && in_ns_years d = true.
Proof.
  unfold iso_date.
  destruct s as [|y1 [|y2 [|y3 [|y4 [|h1 [|m1 [|m2 [|h2 [|d1 [|d2 [|x s]]]]]]]]]]];
    try discriminate;
    try (repeat match goal with
                | |- context [match ?n with N0 => _ | Npos _ => _ end] =>
                    destruct n; try discriminate
                | |- context [match ?p with xH => _ | xO _ => _ | xI _ => _ end] =>
                    destruct p; try discriminate
                end; fail).
  repeat match goal with
         | |- context [match ?n with N0 => _ | Npos _ => _ end] =>
             destruct n; try discriminate
         | |- context [match ?p with xH => _ | xO _ => _ | xI _ => _ end] =>
             destruct p; try discriminate
         end.
  destruct (forallb is_digit [y1; y2; y3; y4; m1; m2; d1; d2]) eqn:Hd; [|discriminate].
  match goal with
  | |- (if ?b then _ else _) = _ -> _ => destruct b eqn:Hv; [|discriminate]
  end.
  intros [= <-]. split; [|exact Hv].
  cbn [forallb] in Hd.
  repeat (apply andb_true_iff in Hd as [? Hd]).
  cbn [is_sentinel]. unfold strip, rstrip.
  cbn [lstrip]. rewrite (is_digit_not_space y1) by assumption.
  cbn [rev app lstrip]. rewrite (is_digit_not_space d2) by assumption.
  cbn [rev app]. unfold upper. cbn [flat_map].
  change (is_ascii 45) with true. cbn iota.
  rewrite !is_digit_upper by assumption.
  apply mem_not_In. cbn [In app].
  intros [He | [He | [He | []]]]; vm_compute in He; discriminate.
Qed.

Lemma iso_cell_coerce (v v' : pyval) :
  iso_cell v = Some v' -> coerce H v' (str "date") = coerce H v (str "date").
Proof.
  unfold iso_cell. destruct (is_missing_cell v) eqn:Hm.
  - intros [= <-]. unfold coerce. now rewrite Hm.
  - destruct v as [ | | b | z | f | s | d | items]; try discriminate.
    destruct (iso_date s) as [d|] eqn:Hd; [|discriminate].
    intros [= <-]. destruct (iso_date_facts s d Hd) as [Hs Hv].
    unfold coerce. rewrite Hs. cbn [is_missing_cell is_sentinel orb pystr_eqb py_date].
    change (pystr_eqb (str "date") (str "numeric")) with false.
    change (pystr_eqb (str "date") (str "integer")) with false.
    change (pystr_eqb (str "date") (str "date")) with true.
    cbn iota. now rewrite Hd, Hv.
Qed.

End BillDate.

(** * The table of the normaliser *)







(** * Loading a table of scalar cells *)
Section LoadTable.
Variable H : Host.

Lemma dedup_columns_length (cols cleaned : list pystr) :
  dedup_columns H cols = Some cleaned -> List.length cleaned = List.length cols.
Proof.
  assert (Hinv : dedup_inv ([], [])) by (split; [tauto | constructor]).
  destruct (dedup_loop_spec H cols [] [] Hinv) as [out [seen' [Hloop [_ [Hlen _]]]]].
  unfold dedup_columns. rewrite Hloop. cbn. now intros [= <-].
Qed.

Lemma iso_cell_scalar (v v' : pyval) :
  iso_cell v = Some v' -> is_list_cell v = false /\ is_list_cell v' = false.
Proof.
  unfold iso_cell. destruct (is_missing_cell v) eqn:Hm.
  - intros [= <-]. split; [|reflexivity]. now destruct v.
  - destruct v as [ | | b | z | f | s | d | items]; try discriminate.
    destruct (iso_date s); [|discriminate]. intros [= <-]. now split.
Qed.

Lemma type_key_bill_date :
  type_key H (infer_pg_type H (str "BillDate")) = str "date".
Proof. reflexivity. Qed.

Lemma length_set_nth (i : nat) (v : pyval) (row : list pyval) :
  List.length (set_nth i v row) = List.length row.
Proof.
  revert i. induction row as [|x row IH]; intros [|i]; cbn; auto.
Qed.

Lemma set_nth_scalar (i : nat) (v : pyval) (row : list pyval) :
  is_list_cell v = false ->
  Forall (fun x => is_list_cell x = false) row ->
  Forall (fun x => is_list_cell x = false) (set_nth i v row).
Proof.
  intros Hv. revert i. induction row as [|x row IH]; intros [|i] Hs; cbn [set_nth];
    try constructor; inversion Hs; subst; auto.
Qed.

Lemma coerced_row_set_nth (cols : list pystr) :
  forall (i : nat) (row : list pyval) (v' : pyval),
    index_of (str "BillDate") cols = Some i ->
    iso_cell (nth i row PNone) = Some v' ->
    coerced_row H cols (set_nth i v' row) = coerced_row H cols row.
Proof.
  induction cols as [|c cols IH]; intros i row v' Hi Hv; [discriminate|].
  destruct row as [|x row]; [destruct i; reflexivity|].
  cbn [index_of] in Hi. destruct (pystr_eqb (str "BillDate") c) eqn:Hc.
  - injection Hi as <-. apply pystr_eqb_eq in Hc. subst c.
    cbn [nth] in Hv. cbn [set_nth]. unfold coerced_row.
    cbn [combine List.map fst snd]. f_equal. rewrite type_key_bill_date.
    exact (iso_cell_coerce H x v' Hv).
  - destruct (index_of (str "BillDate") cols) as [i'|] eqn:Hi'; [|discriminate].
    injection Hi as <-. cbn [nth] in Hv. cbn [set_nth]. unfold coerced_row.
    cbn [combine List.map]. f_equal. exact (IH i' row v' eq_refl Hv).
Qed.

Lemma all_some_iso_cells (i : nat) (rows : list (list pyval)) :
  Forall (fun row => iso_cell (nth i row PNone) <> None) rows ->
  exists dates,
    all_some (List.map iso_cell (List.map (fun row => nth i row PNone) rows)) = Some dates /\
    Forall2 (fun row d => iso_cell (nth i row PNone) = Some d) rows dates.
Proof.
  induction 1 as [|row rows Hrow _ IH].
  - exists []. split; [reflexivity | constructor].
  - destruct IH as [dates [Ha Hf]].
    destruct (iso_cell (nth i row PNone)) as [d|] eqn:Hd; [|contradiction].
    exists (d :: dates). cbn [List.map all_some]. rewrite Hd, Ha.
    split; [reflexivity | now constructor].
Qed.

Lemma clean_rows_prepass (cols : list pystr) (i : nat) :
  index_of (str "BillDate") cols = Some i ->
  forall (rows : list (list pyval)) (dates : list pyval),
    Forall2 (fun row d => iso_cell (nth i row PNone) = Some d) rows dates ->
    Forall (fun row => List.length row = List.length cols) rows ->
    Forall (Forall (fun v => is_list_cell v = false)) rows ->
    map_result (clean_row H cols)
               (List.map (fun rd => set_nth i (snd rd) (fst rd)) (combine rows dates))
    = Ok (List.map (coerced_row H cols) rows).
Proof.
  intros Hi. induction 1 as [|row d rows dates Hd _ IH]; intros Hr Hs; [reflexivity|].
  inversion Hr as [|? ? Hrow Hr']; subst. inversion Hs as [|? ? Hsrow Hs']; subst.
  cbn [combine List.map map_result fst snd].
  rewrite (clean_row_scalar H cols (set_nth i d row)).
  - rewrite (IH Hr' Hs'). cbn [bind]. now rewrite (coerced_row_set_nth cols i row d Hi Hd).
  - now rewrite length_set_nth.
  - apply set_nth_scalar; [|exact Hsrow]. exact (proj2 (iso_cell_scalar _ _ Hd)).
Qed.

Lemma bill_date_prepass_rows (df : frame) :
  rectangular df -> scalar_cells df ->
  iso_bill_dates (columns df) (rows df) ->
  exists df',
    clean_bill_date H df = Ok df' /\
    columns df' = columns df /\
    map_result (clean_row H (columns df)) (rows df')
    = Ok (List.map (coerced_row H (columns df)) (rows df)).
Proof.
  intros Hr Hs Hb. unfold iso_bill_dates in Hb. unfold clean_bill_date.
  destruct (index_of (str "BillDate") (columns df)) as [i|] eqn:Hi.
  - destruct (all_some_iso_cells i (rows df) Hb) as [dates [Ha Hf]].
    unfold to_dates. rewrite Ha. cbn [bind]. eexists. split; [reflexivity|].
    cbn [columns rows]. split; [reflexivity|].
    exact (clean_rows_prepass (columns df) i Hi (rows df) dates Hf Hr Hs).
  - exists df. split; [reflexivity|]. split; [reflexivity|].
    exact (clean_rows_scalar H df Hr Hs).
Qed.

Lemma load_scalar_events (df : frame) (cleaned : list pystr) :
  rectangular df -> scalar_cells df ->
  dedup_columns H (columns df) = Some cleaned ->
  iso_bill_dates cleaned (rows df) ->
  load H accepting df []
  = ([Print (MsgCleanedColumns cleaned);
      Execute (CreateTable table_name (columns_with_types H cleaned)) None;
      Commit;
      Print (MsgTableCreated table_name)]
     ++ List.map (fun r => Execute (InsertRow table_name cleaned r) None)
                 (List.map (coerced_row H cleaned) (rows df))
     ++ [Commit; CursorClose; ConnClose; Print MsgInserted],
     Ok tt).
Proof.
  intros Hr Hs Hd Hb.
  set (sent := List.map (coerced_row H cleaned) (rows df)).
  set (df' := {| columns := cleaned; rows := rows df |}).
  assert (Hr' : rectangular df').
  { unfold rectangular in *. cbn [rows columns df'].
    pose proof (dedup_columns_length (columns df) cleaned Hd) as Hlen.
    eapply Forall_impl; [|exact Hr]. cbv beta. intros row Hrow. congruence. }
  destruct (bill_date_prepass_rows df' Hr' Hs Hb) as [df'' [Hp [Hc Hm]]].
  cbn [columns rows df'] in Hc, Hm. fold sent in Hm.
  unfold load, rename_columns. rewrite Hd. fold df'.
  unfold then_ at 1, lift at 1. unfold then_ at 1, print at 1, emit at 1.
  unfold then_ at 1, execute at 1, accepting at 1.
  unfold then_ at 1, emit at 1. unfold then_ at 1, print at 1, emit at 1.
  unfold then_ at 1, lift at 1. rewrite Hp.
  unfold insert_rows, then_ at 1. rewrite Hc.
  rewrite (for_each_insert_accepting H cleaned (rows df'') sent _ Hm).
  unfold then_, emit, print, emit. cbn [app columns df']. now rewrite <- !app_assoc.
Qed.

Lemma load_scalar_committed (cleaned : list pystr) (sent : list (list pyval)) :
  committed_rows table_name [] []
    ([Print (MsgCleanedColumns cleaned);
      Execute (CreateTable table_name (columns_with_types H cleaned)) None;
      Commit;
      Print (MsgTableCreated table_name)]
     ++ List.map (fun r => Execute (InsertRow table_name cleaned r) None) sent
     ++ [Commit; CursorClose; ConnClose; Print MsgInserted])
  = List.map (combine cleaned) sent.
Proof.
  cbn [app committed_rows]. rewrite committed_rows_inserts. reflexivity.
Qed.

(** X22: with a database that takes every statement, a table that has a
    cell per column in every row, no list-valued cell and, in the column
    BillDate when there is one, only missing values and ISO calendar dates is
    loaded completely: the run prints the
    cleaned names, creates the table under them, commits, sends one INSERT
    per row, in order, with the coerced cells, commits once more and closes;
    the committed rows are the coerced rows under the cleaned names. *)
Theorem load_scalar_table (df : frame) (cleaned : list pystr) :
  rectangular df -> scalar_cells df ->
  dedup_columns H (columns df) = Some cleaned ->
  iso_bill_dates cleaned (rows df) ->
  let sent := List.map (coerced_row H cleaned) (rows df) in
  load H accepting df []
  = ([Print (MsgCleanedColumns cleaned);
      Execute (CreateTable table_name (columns_with_types H cleaned)) None;
      Commit;
      Print (MsgTableCreated table_name)]
     ++ List.map (fun r => Execute (InsertRow table_name cleaned r) None) sent
     ++ [Commit; CursorClose; ConnClose; Print MsgInserted],
     Ok tt) /\
  committed_rows table_name [] [] (fst (load H accepting df []))
  = List.map (combine cleaned) sent.
Proof.
  intros Hr Hs Hd Hb sent.
  rewrite (load_scalar_events df cleaned Hr Hs Hd Hb). split; [reflexivity|].
  cbn [fst]. apply load_scalar_committed.
Qed.


End LoadTable.

(** * Concrete instances of the further properties *)

Lemma schema_identifiers_safe_witness :
  let out := [str "Bill_Date"; str "order_"; str "order__1"] in
  dedup_columns latin1_host [str "Bill Date"; str "order"; str "order"] = Some out /\
  Forall (fun name => Forall (fun c => is_word latin1_host c = true) name /\
                      ~ In dquote name) out /\
  Forall2 (fun name field =>
             quoted_identifier field = Some name /\
             field = [dquote] ++ name ++ [dquote] ++ str " "
                     ++ infer_pg_type latin1_host name)
          out (columns_with_types latin1_host out).
Proof.
  cbv zeta. split; [reflexivity|].
  exact (schema_identifiers_safe latin1_host
           [str "Bill Date"; str "order"; str "order"]
           [str "Bill_Date"; str "order_"; str "order__1"] eq_refl).
Defined.

Lemma dedup_columns_no_rename_witness :
  NoDup (List.map (clean_column latin1_host) [str "Qty"; str "Bill Date"]) /\
  dedup_columns latin1_host [str "Qty"; str "Bill Date"]
  = Some [str "Qty"; str "Bill_Date"].
Proof.
  assert (Hn : NoDup (List.map (clean_column latin1_host) [str "Qty"; str "Bill Date"])).
  { repeat constructor; cbn [In]; intros Hx; repeat destruct Hx as [Hx | Hx];
      try discriminate Hx; exact Hx. }
  split; [exact Hn|].
  exact (dedup_columns_no_rename latin1_host [str "Qty"; str "Bill Date"] Hn).
Defined.


Lemma clean_value_text_witness :
  str "text" <> str "numeric" /\ str "text" <> str "integer" /\
  str "text" <> str "date" /\
  let r := strip (is_space latin1_host) (str "  Paid ") in
  (mem (upper latin1_host r) [str "N/A"; []; str "NA"] = true /\
   clean_value latin1_host (PStr (str "  Paid ")) (str "text") = Ok PNone) \/
  (mem (upper latin1_host r) [str "N/A"; []; str "NA"] = false /\
   clean_value latin1_host (PStr (str "  Paid ")) (str "text") = Ok (PStr r) /\
   r <> [] /\
   (forall c, hd_error r = Some c -> is_space latin1_host c = false) /\
   (forall c, last_error r = Some c -> is_space latin1_host c = false)).
Proof.
  assert (Hn : str "text" <> str "numeric") by discriminate.
  assert (Hi : str "text" <> str "integer") by discriminate.
  assert (Hd : str "text" <> str "date") by discriminate.
  conjs; [exact Hn | exact Hi | exact Hd |].
  exact (clean_value_text latin1_host (str "  Paid ") (str "text") Hn Hi Hd).
Defined.

Lemma int_of_float_truncates_witness :
  int_of_float (S754_finite true 5 (-1)) = Ok (-2)%Z /\
  (-2 <= 0)%Z /\
  (0 <= -1 -> Z.abs (-2) = Z.pos 5 * 2 ^ (-1))%Z /\
  (-1 < 0 -> Z.abs (-2) * 2 ^ (- -1) <= Z.pos 5 < (Z.abs (-2) + 1) * 2 ^ (- -1))%Z.
Proof.
  split; [reflexivity|].
  exact (int_of_float_truncates true 5 (-1) (-2) eq_refl).
Defined.

Lemma clean_row_by_column_witness :
  List.length [PStr (str "3"); PStr (str " x ")] = List.length [str "Qty"; str "Name"] /\
  clean_row latin1_host [str "Qty"; str "Name"] [PStr (str "3"); PStr (str " x ")]
  = map_result (fun cv => clean_value latin1_host (snd cv)
                            (type_key latin1_host (infer_pg_type latin1_host (fst cv))))
               (combine [str "Qty"; str "Name"] [PStr (str "3"); PStr (str " x ")]).
Proof.
  split; [reflexivity|].
  exact (clean_row_by_column latin1_host [str "Qty"; str "Name"]
           [PStr (str "3"); PStr (str " x ")] eq_refl).
Defined.

Lemma insert_rows_scalar_table_witness :
  let df := {| columns := [str "Qty"];
               rows := [[PStr (str "1")]; [PStr (str "abc")]] |} in
  rectangular df /\ scalar_cells df /\
  exists evs,
    insert_rows latin1_host refuses_null df []
    = ([] ++ evs ++ [Commit; CursorClose; ConnClose; Print MsgInserted], Ok tt) /\
    insert_trace (columns df)
                 (List.map (coerced_row latin1_host (columns df)) (rows df)) evs.
Proof.
  cbv zeta.
  assert (Hr : rectangular {| columns := [str "Qty"];
                              rows := [[PStr (str "1")]; [PStr (str "abc")]] |})
    by (repeat constructor).
  assert (Hs : scalar_cells {| columns := [str "Qty"];
                               rows := [[PStr (str "1")]; [PStr (str "abc")]] |})
    by (repeat constructor).
  conjs; [exact Hr | exact Hs |].
  exact (insert_rows_scalar_table latin1_host refuses_null _ [] Hr Hs).
Defined.

Lemma insert_rows_commits_all_witness :
  let df := {| columns := [str "Qty"; str "Name"];
               rows := [[PStr (str "1"); PStr (str "a")];
                        [PStr (str "n/a"); PStr (str " b ")]] |} in
  let cleaned := [[PInt 1; PStr (str "a")]; [PNone; PStr (str "b")]] in
  map_result (clean_row latin1_host (columns df)) (rows df) = Ok cleaned /\
  snd (insert_rows latin1_host accepting df []) = Ok tt /\
  committed_rows table_name [] [] (fst (insert_rows latin1_host accepting df []))
  = List.map (combine (columns df)) cleaned.
Proof.
  cbv zeta. split; [reflexivity|].
  exact (insert_rows_commits_all latin1_host
           {| columns := [str "Qty"; str "Name"];
              rows := [[PStr (str "1"); PStr (str "a")];
                       [PStr (str "n/a"); PStr (str " b ")]] |}
           [[PInt 1; PStr (str "a")]; [PNone; PStr (str "b")]] eq_refl).
Defined.

Lemma repair_keeps_escapes_witness :
  contains [backslash; backslash] (json_text "{'p':'a\qb\n'}") = false /\
  repair (json_text "{'p':'a\qb\n'}")
  = repair_keeping_escapes false (json_text "{'p':'a\qb\n'}").
Proof.
  split; [reflexivity|].
  exact (repair_keeps_escapes (json_text "{'p':'a\qb\n'}") eq_refl).
Defined.


Lemma load_scalar_table_witness :
  let df := {| columns := [str "Qty"; str "Bill Date"];
               rows := [[PStr (str "1"); PStr (str "2024-03-05")];
                        [PStr (str "n/a"); PNone]] |} in
  let cleaned := [str "Qty"; str "Bill_Date"] in
  let sent := List.map (coerced_row latin1_host cleaned) (rows df) in
  rectangular df /\ scalar_cells df /\
  dedup_columns latin1_host (columns df) = Some cleaned /\
  iso_bill_dates cleaned (rows df) /\
  load latin1_host accepting df []
  = ([Print (MsgCleanedColumns cleaned);
      Execute (CreateTable table_name (columns_with_types latin1_host cleaned)) None;
      Commit;
      Print (MsgTableCreated table_name)]
     ++ List.map (fun r => Execute (InsertRow table_name cleaned r) None) sent
     ++ [Commit; CursorClose; ConnClose; Print MsgInserted],
     Ok tt) /\
  committed_rows table_name [] [] (fst (load latin1_host accepting df []))
  = List.map (combine cleaned) sent.
Proof.
  cbv zeta.
  assert (Hr : rectangular {| columns := [str "Qty"; str "Bill Date"];
                              rows := [[PStr (str "1"); PStr (str "2024-03-05")];
                                       [PStr (str "n/a"); PNone]] |})
    by (repeat constructor).
  assert (Hs : scalar_cells {| columns := [str "Qty"; str "Bill Date"];
                               rows := [[PStr (str "1"); PStr (str "2024-03-05")];
                                        [PStr (str "n/a"); PNone]] |})
    by (repeat constructor).
  assert (Hb : iso_bill_dates [str "Qty"; str "Bill_Date"]
                 [[PStr (str "1"); PStr (str "2024-03-05")]; [PStr (str "n/a"); PNone]])
    by exact I.
  split; [exact Hr|]. split; [exact Hs|]. split; [reflexivity|]. split; [exact Hb|].
  exact (load_scalar_table latin1_host _ [str "Qty"; str "Bill_Date"]
           Hr Hs eq_refl Hb).
Defined.

